(** * SimpleMicroservices: the Owner and Pet schema models

    The repository declares its request and response shapes as pydantic
    models ([models/owner.py], [models/pet.py]).  A model is a table of
    fields; each field has a name, a declared type and either the marker
    [...] (required), a constant default or a [default_factory].

    The development embeds these tables as they are written and gives them
    the meaning pydantic gives them: a payload (a Python [dict]) is checked
    field by field, in declaration order, all errors are collected, and a
    validated field dictionary is produced only when no field failed.
    Default factories ([uuid4], [datetime.utcnow], [list]) are effects; they
    are threaded through an explicit world that counts the calls made so far.

    Python dictionaries are [gmap string _]; the world is passed explicitly;
    a validation outcome is a sum of a value and a list of errors. *)

From Stdlib Require Import Ascii String DecimalString DecimalN DecimalZ.
From stdpp Require Import gmap strings list fin_maps.

Set Warnings "-register-all".

(** ** Python values *)

(** [uuid.UUID] is a 128-bit integer, [datetime.date] a day number and
    [datetime.datetime] an instant counted in microseconds. *)
Definition UUID := N.
Definition date := Z.
Definition datetime := Z.

(** The values a payload or a validated model can hold.  [PNum] keeps the
    literal of a JSON number; [PDict] is a [dict] keyed by field name. *)
Inductive pyval :=
| PNone
| PBool (b : bool)
| PNum (lit : string)
| PStr (s : string)
| PUuid (u : UUID)
| PDate (d : date)
| PDatetime (t : datetime)
| PList (l : list pyval)
| PDict (m : gmap string pyval).


(** ** Validation errors *)

Inductive loc_item := LKey (k : string) | LIdx (i : nat).

Inductive err_kind :=
| missing
| string_type
| string_too_short
| list_type
| model_type
| uuid_type
| uuid_parsing
| date_type
| date_parsing
| datetime_type
| datetime_parsing
| email_syntax.

Record error := { loc : list loc_item; kind : err_kind }.

(** The outcome of a validation: the validated value, or the
    [ValidationError] with every error found. *)
Inductive result (A : Type) :=
| Ok (a : A)
| Err (es : list error).
Arguments Ok {A} a.
Arguments Err {A} es.

Definition is_ok {A} (r : result A) : bool :=
  match r with Ok _ => true | Err _ => false end.

Definition result_map {A B} (f : A → B) (r : result A) : result B :=
  match r with Ok a => Ok (f a) | Err es => Err es end.

Definition at_loc {A} (i : loc_item) (r : result A) : result A :=
  match r with
  | Ok a => Ok a
  | Err es => Err (map (λ e, {| loc := i :: loc e; kind := kind e |}) es)
  end.

(** An error moved under a key or an index, as [at_loc] does. *)
Definition under (i : loc_item) (e : error) : error :=
  {| loc := i :: loc e; kind := kind e |}.

(** Two outcomes are combined without stopping at the first failure. *)
Definition both {A B C} (f : A → B → C) (ra : result A) (rb : result B) : result C :=
  match ra, rb with
  | Ok a, Ok b => Ok (f a b)
  | Ok _, Err es => Err es
  | Err es, Ok _ => Err es
  | Err es1, Err es2 => Err (es1 ++ es2)
  end.

Definition fail {A} (k : err_kind) : result A := Err [{| loc := []; kind := k |}].

(** ** The libraries the models rely on *)

(** The conversions of pydantic and of the Python standard library that the
    declared field types call.  They are not part of the repository and are
    taken as an interface. *)
Class Codec := {
  (** [email_validator.validate_email]: the normalized address, if valid *)
  validate_email : string → option string;
  (** [UUID(s)] and [str(u)] *)
  uuid_parse : string → option UUID;
  uuid_str : UUID → string;
  (** [date.fromisoformat], [date.isoformat], a unix timestamp read as a
      date, and the date of a datetime whose time of day is zero *)
  date_parse : string → option date;
  date_isoformat : date → string;
  date_of_number : string → option date;
  date_of_datetime : datetime → option date;
  (** the same for [datetime]; a date is read as its midnight *)
  datetime_parse : string → option datetime;
  datetime_isoformat : datetime → string;
  datetime_of_number : string → option datetime;
  datetime_of_date : date → datetime;
}.

(** [EmailStr]: a string that [email_validator] accepts; the validated
    value is the normalized address.  An address without an at-sign is
    refused before anything else is looked at. *)
Definition has_at_sign (s : string) : bool :=
  bool_decide ("@"%char ∈ list_ascii_of_string s).

Definition EmailStr `{Codec} (s : string) : option string :=
  if has_at_sign s then validate_email s else None.

(** What the round-trip statements need from the conversions: printing and
    reading back is the identity, and a normalized address is valid and
    already normal. *)
Class CodecLaws `{Codec} := {
  uuid_parse_str u : uuid_parse (uuid_str u) = Some u;
  date_parse_isoformat d : date_parse (date_isoformat d) = Some d;
  datetime_parse_isoformat t : datetime_parse (datetime_isoformat t) = Some t;
  EmailStr_normal s s' : EmailStr s = Some s' → EmailStr s' = Some s';
}.

(** The sources of identifiers and of time: the value returned by the
    [n]-th call of [uuid4()] and of [datetime.utcnow()]. *)
Class Oracle := {
  uuid4_at : nat → UUID;
  utcnow_at : nat → datetime;
}.

(** The world counts the calls made to each source. *)
Record World := { uuid_calls : nat; clock_calls : nat }.

(** The world only moves forward. *)
Definition world_le (w w' : World) : Prop :=
  uuid_calls w ≤ uuid_calls w' ∧ clock_calls w ≤ clock_calls w'.

(** ** Field declarations *)

Inductive factory := Flist | Fuuid4 | Futcnow.

(** [Field(...)], [Field(v)] and [Field(default_factory=f)]. *)
Inductive default :=
| Required
| Default (v : pyval)
| DefaultFactory (f : factory).

(** Declared types, and a model as the sequence of its fields in
    declaration order (base class first).  [TConStr n] is a string of at
    least [n] characters ([Field(..., min_length=n)]); the classes of
    [owner.py] and [pet.py] declare none. *)
Inductive ftype :=
| TStr
| TConStr (min_length : nat)
| TEmail
| TUuid
| TDate
| TDatetime
| TOptional (t : ftype)
| TList (t : ftype)
| TModel (fs : fields)
with fields :=
| FNil
| FCons (name : string) (t : ftype) (d : default) (rest : fields).

Scheme ftype_fields_ind := Induction for ftype Sort Prop
  with fields_ftype_ind := Induction for fields Sort Prop.
Combined Scheme schema_ind from ftype_fields_ind, fields_ftype_ind.

Notation "'class' {{ f1 ; .. ; fn }}" := (f1 (.. (fn FNil) ..))
  (at level 0, f1 at level 200, fn at level 200).
Notation "n '∷' t ':=' d" := (FCons n t d) (at level 60, t at level 10, d at level 10).

(** A subclass lists the fields of its base class, then its own. *)
Fixpoint extends (base own : fields) : fields :=
  match base with
  | FNil => own
  | FCons n t d rest => FCons n t d (extends rest own)
  end.

Fixpoint names (fs : fields) : list string :=
  match fs with
  | FNil => []
  | FCons n _ _ rest => n :: names rest
  end.

(** The declaration of a field, by name. *)
Fixpoint lookup_field (fs : fields) (n : string) : option (ftype * default) :=
  match fs with
  | FNil => None
  | FCons n' t d rest =>
      if String.eqb n' n then Some (t, d) else lookup_field rest n
  end.

(** A default that is a value of the declared type; pydantic does not
    validate defaults. *)
Definition default_ok (t : ftype) (d : default) : bool :=
  match d, t with
  | Required, _ => true
  | Default PNone, TOptional _ => true
  | DefaultFactory Flist, TList _ => true
  | DefaultFactory Fuuid4, TUuid => true
  | DefaultFactory Futcnow, TDatetime => true
  | _, _ => false
  end.

(** A well-formed class has one field of each name and defaults of the
    declared types, at every depth. *)
Fixpoint wf (t : ftype) : bool :=
  match t with
  | TOptional t' | TList t' => wf t'
  | TModel fs => wf_fields fs
  | _ => true
  end
with wf_fields (fs : fields) : bool :=
  match fs with
  | FNil => true
  | FCons n t d rest =>
      bool_decide (n ∉ names rest) && default_ok t d && wf t && wf_fields rest
  end.

(** A type whose validation draws no identifier and reads no clock, and a
    class all of whose fields are such and take no default from [uuid4] or
    [datetime.utcnow]. *)
Fixpoint effect_free (t : ftype) : bool :=
  match t with
  | TOptional t' | TList t' => effect_free t'
  | TModel fs => effect_free_fields fs
  | _ => true
  end
with effect_free_fields (fs : fields) : bool :=
  match fs with
  | FNil => true
  | FCons _ t d rest =>
      match d with
      | DefaultFactory Fuuid4 | DefaultFactory Futcnow => false
      | _ => true
      end && effect_free t && effect_free_fields rest
  end.

(** ** Validation *)

Section Validation.
Context `{Codec} `{Oracle}.

(** A validator reads and advances the world and returns an outcome. *)
Definition VM (A : Type) : Type := World → World * result A.

Definition call_factory (f : factory) (w : World) : World * pyval :=
  match f with
  | Flist => (w, PList [])
  | Fuuid4 =>
      ({| uuid_calls := S (uuid_calls w); clock_calls := clock_calls w |},
       PUuid (uuid4_at (uuid_calls w)))
  | Futcnow =>
      ({| uuid_calls := uuid_calls w; clock_calls := S (clock_calls w) |},
       PDatetime (utcnow_at (clock_calls w)))
  end.

(** The value of a field the payload does not carry. *)
Definition default_value (d : default) : VM pyval := λ w,
  match d with
  | Required => (w, fail missing)
  | Default v => (w, Ok v)
  | DefaultFactory f => let '(w', v) := call_factory f w in (w', Ok v)
  end.

(** [str]: only a string is a string. *)
Definition str_validate (v : pyval) : result pyval :=
  match v with
  | PStr s => Ok (PStr s)
  | _ => fail string_type
  end.

(** A string with a minimal length. *)
Definition constr_validate (n : nat) (v : pyval) : result pyval :=
  match v with
  | PStr s =>
      if n <=? String.length s then Ok (PStr s) else fail string_too_short
  | _ => fail string_type
  end.

(** [EmailStr]: a string, checked and normalized as an address. *)
Definition email_validate (v : pyval) : result pyval :=
  match v with
  | PStr s =>
      match EmailStr s with
      | Some s' => Ok (PStr s')
      | None => fail email_syntax
      end
  | _ => fail string_type
  end.

Definition of_option (k : err_kind) (o : option pyval) : result pyval :=
  match o with Some v => Ok v | None => fail k end.

(** [UUID]: an instance, or a string in one of the textual forms. *)
Definition uuid_validate (v : pyval) : result pyval :=
  match v with
  | PUuid u => Ok (PUuid u)
  | PStr s => of_option uuid_parsing (PUuid <$> uuid_parse s)
  | _ => fail uuid_type
  end.

(** [date]: an instance, a datetime at midnight, an ISO string or a
    timestamp. *)
Definition date_validate (v : pyval) : result pyval :=
  match v with
  | PDate d => Ok (PDate d)
  | PDatetime t => of_option date_parsing (PDate <$> date_of_datetime t)
  | PStr s => of_option date_parsing (PDate <$> date_parse s)
  | PNum n => of_option date_parsing (PDate <$> date_of_number n)
  | _ => fail date_type
  end.

(** [datetime]: an instance, a date, an ISO string or a timestamp. *)
Definition datetime_validate (v : pyval) : result pyval :=
  match v with
  | PDatetime t => Ok (PDatetime t)
  | PDate d => Ok (PDatetime (datetime_of_date d))
  | PStr s => of_option datetime_parsing (PDatetime <$> datetime_parse s)
  | PNum n => of_option datetime_parsing (PDatetime <$> datetime_of_number n)
  | _ => fail datetime_type
  end.

(** The items of a list are validated in order, each under its index. *)
Fixpoint validate_items (f : pyval → VM pyval) (i : nat) (l : list pyval)
    : VM (list pyval) := λ w,
  match l with
  | [] => (w, Ok [])
  | x :: xs =>
      let '(w1, r1) := f x w in
      let '(w2, r2) := validate_items f (S i) xs w1 in
      (w2, both cons (at_loc (LIdx i) r1) r2)
  end.

(** [validate t v] checks [v] against the declared type [t];
    [validate_fields fs m] checks the dictionary [m] against the fields
    [fs]: a field the payload carries is validated, one it does not carry
    takes its default, and keys that name no field are ignored. *)
Fixpoint validate (t : ftype) (v : pyval) : VM pyval :=
  match t with
  | TStr => λ w, (w, str_validate v)
  | TConStr n => λ w, (w, constr_validate n v)
  | TEmail => λ w, (w, email_validate v)
  | TUuid => λ w, (w, uuid_validate v)
  | TDate => λ w, (w, date_validate v)
  | TDatetime => λ w, (w, datetime_validate v)
  | TOptional t' =>
      match v with
      | PNone => λ w, (w, Ok PNone)
      | _ => validate t' v
      end
  | TList t' =>
      match v with
      | PList l => λ w,
          let '(w', r) := validate_items (validate t') 0 l w in
          (w', result_map PList r)
      | _ => λ w, (w, fail list_type)
      end
  | TModel fs =>
      match v with
      | PDict m => λ w,
          let '(w', r) := validate_fields fs m w in
          (w', result_map PDict r)
      | _ => λ w, (w, fail model_type)
      end
  end
with validate_fields (fs : fields) (m : gmap string pyval)
    : VM (gmap string pyval) :=
  match fs with
  | FNil => λ w, (w, Ok ∅)
  | FCons n t d rest => λ w,
      let '(w1, r1) :=
        match m !! n with
        | Some v => validate t v w
        | None => default_value d w
        end in
      let '(w2, r2) := validate_fields rest m w1 in
      (w2, both (insert n) (at_loc (LKey n) r1) r2)
  end.

(** What a caller does with a validated value happens only when there is
    one; an error ends the computation. *)
Definition and_then {A B} (m : VM A) (k : A → VM B) : VM B := λ w,
  match m w with
  | (w1, Ok a) => k a w1
  | (w1, Err es) => (w1, Err es)
  end.

(** The step taken for one field: validate what the payload carries, or
    take the default. *)
Definition validate_field (t : ftype) (d : default) (o : option pyval)
    : VM pyval :=
  match o with
  | Some v => validate t v
  | None => default_value d
  end.

(** Constructing a model from a payload, and the names of the fields the
    payload set explicitly (pydantic's [model_fields_set]). *)
Definition model_validate (fs : fields) (p : gmap string pyval)
    : VM (gmap string pyval) := validate_fields fs p.

Definition model_fields_set (fs : fields) (p : gmap string pyval) : gset string :=
  list_to_set (names fs) ∩ dom p.

(** ** Serialization *)

(** [model_dump()] keeps the Python values; [model_dump(mode="json")]
    turns identifiers and times into their text.  Both go through the
    declared fields, each converted by its type. *)
Inductive mode := python | json.

Fixpoint dump (md : mode) (t : ftype) (v : pyval) : pyval :=
  match t with
  | TUuid =>
      match md, v with json, PUuid u => PStr (uuid_str u) | _, _ => v end
  | TDate =>
      match md, v with json, PDate d => PStr (date_isoformat d) | _, _ => v end
  | TDatetime =>
      match md, v with
      | json, PDatetime x => PStr (datetime_isoformat x)
      | _, _ => v
      end
  | TOptional t' => match v with PNone => PNone | _ => dump md t' v end
  | TList t' => match v with PList l => PList (map (dump md t') l) | _ => v end
  | TModel fs => match v with PDict m => PDict (dump_fields md fs m) | _ => v end
  | _ => v
  end
with dump_fields (md : mode) (fs : fields) (m : gmap string pyval)
    : gmap string pyval :=
  match fs with
  | FNil => ∅
  | FCons n t _ rest =>
      match m !! n with
      | Some v => <[n := dump md t v]> (dump_fields md rest m)
      | None => dump_fields md rest m
      end
  end.

Definition model_dump (md : mode) (fs : fields) (r : gmap string pyval)
    : gmap string pyval := dump_fields md fs r.

(** ** What a payload must satisfy, and what a validated value looks like *)

Definition is_required (d : default) : bool :=
  match d with Required => true | _ => false end.

(** [conforms t v]: the payload value [v] is acceptable for the declared
    type [t].  It does not depend on the world. *)
Fixpoint conforms (t : ftype) (v : pyval) : bool :=
  match t with
  | TStr => is_ok (str_validate v)
  | TConStr n => is_ok (constr_validate n v)
  | TEmail => is_ok (email_validate v)
  | TUuid => is_ok (uuid_validate v)
  | TDate => is_ok (date_validate v)
  | TDatetime => is_ok (datetime_validate v)
  | TOptional t' => match v with PNone => true | _ => conforms t' v end
  | TList t' => match v with PList l => forallb (conforms t') l | _ => false end
  | TModel fs => match v with PDict m => conforms_fields fs m | _ => false end
  end
with conforms_fields (fs : fields) (m : gmap string pyval) : bool :=
  match fs with
  | FNil => true
  | FCons n t d rest =>
      match m !! n with
      | Some v => conforms t v
      | None => negb (is_required d)
      end && conforms_fields rest m
  end.

(** Whether the step of a field succeeds on what the payload carries. *)
Definition field_conforms (t : ftype) (d : default) (o : option pyval) : bool :=
  match o with
  | Some v => conforms t v
  | None => negb (is_required d)
  end.

(** Being of the declared type: as [conforms], except that an [EmailStr]
    field only asks for a string here; whether the string is an address is
    a matter of syntax, not of type. *)
Definition well_typed (t : ftype) (v : pyval) : bool :=
  match t with
  | TEmail => is_ok (str_validate v)
  | _ => conforms t v
  end.

(** [instance_of t v]: [v] is a value a field of type [t] holds after
    validation: a string, a normalized address, an identifier, ..., and for
    a model, a dictionary with exactly the declared fields, each an instance
    of its type. *)
Fixpoint instance_of (t : ftype) (v : pyval) : Prop :=
  match t with
  | TStr => ∃ s, v = PStr s
  | TConStr n => ∃ s, v = PStr s ∧ n ≤ String.length s
  | TEmail => ∃ s, v = PStr s ∧ EmailStr s = Some s
  | TUuid => ∃ u, v = PUuid u
  | TDate => ∃ d, v = PDate d
  | TDatetime => ∃ x, v = PDatetime x
  | TOptional t' => v = PNone ∨ instance_of t' v
  | TList t' => ∃ l, v = PList l ∧ Forall (instance_of t') l
  | TModel fs =>
      ∃ m, v = PDict m ∧ has_fields fs m ∧ ∀ k, is_Some (m !! k) → k ∈ names fs
  end
with has_fields (fs : fields) (m : gmap string pyval) : Prop :=
  match fs with
  | FNil => True
  | FCons n t _ rest =>
      (∃ v, m !! n = Some v ∧ instance_of t v) ∧ has_fields rest m
  end.

(** A record of the model [fs]. *)
Definition record_of (fs : fields) (r : gmap string pyval) : Prop :=
  instance_of (TModel fs) (PDict r).

End Validation.

(** ** The models of the repository *)

(** Modelled from the spec: [AddressBase] of [models/address.py], which
    [owner.py] imports and which is not among the sources.  The spec gives
    it the text fields street, city, postal_code and country (required,
    non-empty) and state (optional), and an identifier that the server
    assigns unless the client echoes one.  The models below take the address class as a
    parameter; this instance is the one used to run them. *)
Definition AddressBase_spec : fields :=
  class {{
    "id" ∷ TUuid := DefaultFactory Fuuid4;
    "street" ∷ TConStr 1 := Required;
    "city" ∷ TConStr 1 := Required;
    "state" ∷ TOptional TStr := Default PNone;
    "postal_code" ∷ TConStr 1 := Required;
    "country" ∷ TConStr 1 := Required
  }}.

Section Models.
Context `{Codec} `{Oracle}.
Variable AddressBase : fields.

(** [owner.py] *)

Definition OwnerBase : fields :=
  class {{
    "first_name" ∷ TStr := Required;
    "last_name" ∷ TStr := Required;
    "email" ∷ TEmail := Required;
    "phone" ∷ TOptional TStr := Default PNone;
    "government_id" ∷ TOptional TStr := Default PNone;
    "addresses" ∷ TList (TModel AddressBase) := DefaultFactory Flist
  }}.

Definition OwnerCreate : fields := extends OwnerBase FNil.

Definition OwnerUpdate : fields :=
  class {{
    "first_name" ∷ TOptional TStr := Default PNone;
    "last_name" ∷ TOptional TStr := Default PNone;
    "email" ∷ TOptional TEmail := Default PNone;
    "phone" ∷ TOptional TStr := Default PNone;
    "government_id" ∷ TOptional TStr := Default PNone;
    "addresses" ∷ TOptional (TList (TModel AddressBase)) := Default PNone
  }}.

Definition OwnerRead : fields :=
  extends OwnerBase
    class {{
      "id" ∷ TUuid := DefaultFactory Fuuid4;
      "created_at" ∷ TDatetime := DefaultFactory Futcnow;
      "updated_at" ∷ TDatetime := DefaultFactory Futcnow
    }}.

(** [pet.py] *)

Definition PetBase : fields :=
  class {{
    "name" ∷ TStr := Required;
    "species" ∷ TStr := Required;
    "breed" ∷ TOptional TStr := Default PNone;
    "birth_date" ∷ TOptional TDate := Default PNone;
    "color" ∷ TOptional TStr := Default PNone
  }}.

Definition PetCreate : fields :=
  extends PetBase class {{ "owner_id" ∷ TUuid := Required }}.

Definition PetUpdate : fields :=
  class {{
    "name" ∷ TOptional TStr := Default PNone;
    "species" ∷ TOptional TStr := Default PNone;
    "breed" ∷ TOptional TStr := Default PNone;
    "birth_date" ∷ TOptional TDate := Default PNone;
    "color" ∷ TOptional TStr := Default PNone
  }}.

Definition PetRead : fields :=
  extends PetBase
    class {{
      "id" ∷ TUuid := DefaultFactory Fuuid4;
      "owner" ∷ TOptional (TModel OwnerRead) := Default PNone;
      "created_at" ∷ TDatetime := DefaultFactory Futcnow;
      "updated_at" ∷ TDatetime := DefaultFactory Futcnow
    }}.

(** ** The service steps that use the models *)

(** Keeping the fields of [u] that the payload set:
    [model_dump(exclude_unset=True)]. *)
Definition exclude_unset (set : gset string) (u : gmap string pyval)
    : gmap string pyval :=
  filter (λ kv, kv.1 ∈ set) u.

(** [dict.update]: the keys of [patch] win. *)
Definition dict_update (stored patch : gmap string pyval) : gmap string pyval :=
  patch ∪ stored.

(** Modelled from the spec: the update step, whose handler is not among
    the sources.  The Update payload is validated; the fields it sets
    overwrite those of the stored record, the others are kept;
    [updated_at] is set to the current time; the result is constructed as
    a Read record. *)
Definition update (Update Read : fields) (stored p : gmap string pyval)
    : VM (gmap string pyval) :=
  and_then (model_validate Update p) (λ u w1,
    let patch :=
      exclude_unset (model_fields_set Update p) (model_dump python Update u) in
    let '(w2, now) := call_factory Futcnow w1 in
    model_validate Read
      (<["updated_at" := now]>
         (dict_update (model_dump python Read stored) patch)) w2).

Definition update_owner := update OwnerUpdate OwnerRead.
Definition update_pet := update PetUpdate PetRead.

End Models.

(** ** An instance to run the models with *)

(** Identifiers, dates and instants written as decimal numerals; every
    address with an at-sign is valid and already normal; a date is the
    midnight that starts it (86400000000 microseconds a day). *)
Definition N_of_string (s : string) : option N :=
  N.of_uint <$> NilZero.uint_of_string s.
Definition string_of_N (n : N) : string :=
  NilZero.string_of_uint (N.to_uint n).
Definition Z_of_string (s : string) : option Z :=
  Z.of_int <$> NilZero.int_of_string s.
Definition string_of_Z (z : Z) : string :=
  NilZero.string_of_int (Z.to_int z).

Definition day : Z := 86400000000.

#[export] Instance decimal_codec : Codec := {|
  validate_email := Some;
  uuid_parse := N_of_string;
  uuid_str := string_of_N;
  date_parse := Z_of_string;
  date_isoformat := string_of_Z;
  date_of_number := Z_of_string;
  date_of_datetime := λ t, if decide (t `mod` day = 0)%Z then Some (t `div` day)%Z else None;
  datetime_parse := Z_of_string;
  datetime_isoformat := string_of_Z;
  datetime_of_number := Z_of_string;
  datetime_of_date := λ d, (d * day)%Z;
|}.

(** The [n]-th identifier is [n], and the clock advances by one microsecond
    at every reading. *)
#[export] Instance counting_oracle : Oracle := {|
  uuid4_at := N.of_nat;
  utcnow_at := Z.of_nat;
|}.

Definition world0 : World := {| uuid_calls := 0; clock_calls := 0 |}.

(** The payloads of the spec's example scenario. *)
Definition ada : gmap string pyval :=
  <["first_name" := PStr "Ada"]> (<["last_name" := PStr "Lovelace"]>
  (<["email" := PStr "ada@example.com"]> (<["addresses" := PList []]> ∅))).

Definition ada_phone : gmap string pyval :=
  {["phone" := PStr "+1-555-0000"]}.

(** The same payload after validation, and the Read record created for it
    in [world0]. *)
Definition ada_validated : gmap string pyval :=
  <["phone" := PNone]> (<["government_id" := PNone]> ada).

Definition ada_read : gmap string pyval :=
  <["id" := PUuid 0%N]> (<["created_at" := PDatetime 0%Z]>
  (<["updated_at" := PDatetime 1%Z]> ada_validated)).

Definition world1 : World := {| uuid_calls := 1; clock_calls := 2 |}.

(** The record after the update of the phone number, made in [world1]. *)
Definition ada_read_phone : gmap string pyval :=
  <["phone" := PStr "+1-555-0000"]> (<["updated_at" := PDatetime 2%Z]> ada_read).

(** Two addresses as a client sends them, without identifier. *)
Definition main_street : pyval :=
  PDict (<["street" := PStr "123 Main St"]> (<["city" := PStr "London"]>
        (<["postal_code" := PStr "SW1A 1AA"]> (<["country" := PStr "UK"]> ∅)))).

Definition downing_street : pyval :=
  PDict (<["street" := PStr "10 Downing St"]> (<["city" := PStr "London"]>
        (<["postal_code" := PStr "SW1A 2AA"]> (<["country" := PStr "UK"]> ∅)))).

(** A pet payload, one without its owner, and one whose species is a
    number. *)
Definition buddy : gmap string pyval :=
  <["name" := PStr "Buddy"]> (<["species" := PStr "Dog"]>
  (<["owner_id" := PUuid 0%N]> ∅)).

Definition buddy_no_owner : gmap string pyval :=
  <["name" := PStr "Buddy"]> (<["species" := PStr "Dog"]> ∅).

Definition buddy_bad_species : gmap string pyval :=
  <["species" := PNum "3"]> buddy.

(** A Pet Read payload that carries its resolved owner, and the record
    built from it in [world1]. *)
Definition buddy_with_owner : gmap string pyval :=
  <["name" := PStr "Buddy"]> (<["species" := PStr "Dog"]>
  (<["owner" := PDict ada_read]> ∅)).

Definition buddy_read : gmap string pyval :=
  <["breed" := PNone]> (<["birth_date" := PNone]> (<["color" := PNone]>
  (<["id" := PUuid 1%N]> (<["created_at" := PDatetime 2%Z]>
  (<["updated_at" := PDatetime 3%Z]> buddy_with_owner))))).

Definition world2 : World := {| uuid_calls := 2; clock_calls := 4 |}.


(** * Properties *)

(** ** Outcomes *)

Lemma is_ok_both {A B C} (f : A → B → C) ra rb :
  is_ok (both f ra rb) = is_ok ra && is_ok rb.
Proof. by destruct ra, rb. Qed.

Lemma is_ok_at_loc {A} i (r : result A) : is_ok (at_loc i r) = is_ok r.
Proof. by destruct r. Qed.

Lemma is_ok_result_map {A B} (f : A → B) r : is_ok (result_map f r) = is_ok r.
Proof. by destruct r. Qed.

Lemma is_ok_true {A} (r : result A) : is_ok r = true ↔ ∃ a, r = Ok a.
Proof. destruct r; simpl; split; [eauto| |done|intros [? ?]; done]. done. Qed.

Lemma is_ok_false {A} (r : result A) : is_ok r = false ↔ ∃ es, r = Err es.
Proof. destruct r; simpl; split; [done|intros [? ?]; done|eauto|done]. Qed.

Lemma both_ok {A B C} (f : A → B → C) ra rb c :
  both f ra rb = Ok c → ∃ a b, ra = Ok a ∧ rb = Ok b ∧ c = f a b.
Proof. destruct ra, rb; simpl; intros; simplify_eq; eauto. Qed.

Lemma at_loc_ok {A} i (r : result A) a : at_loc i r = Ok a → r = Ok a.
Proof. by destruct r. Qed.

Lemma result_map_ok {A B} (f : A → B) r b :
  result_map f r = Ok b → ∃ a, r = Ok a ∧ b = f a.
Proof. destruct r; simpl; intros; simplify_eq; eauto. Qed.

Section Theory.
Context `{codec : Codec} `{oracle : Oracle}.

(** ** Acceptance does not depend on the world *)

Lemma validate_items_is_ok f c i l w :
  (∀ v w', is_ok (f v w').2 = c v) →
  is_ok (validate_items f i l w).2 = forallb c l.
Proof.
  intros Hf. revert i w. induction l as [|x xs IH]; intros i w; simpl; [done|].
  specialize (Hf x w). destruct (f x w) as [w1 r1]. simpl in Hf.
  specialize (IH (S i) w1). destruct (validate_items f (S i) xs w1) as [w2 r2].
  simpl in *. by rewrite is_ok_both, is_ok_at_loc, Hf, IH.
Qed.

Lemma default_value_is_ok d w :
  is_ok (default_value d w).2 = negb (is_required d).
Proof. by destruct d as [| |[]]. Qed.

Lemma validate_is_ok_conforms :
  (∀ t v w, is_ok (validate t v w).2 = conforms t v) ∧
  (∀ fs m w, is_ok (validate_fields fs m w).2 = conforms_fields fs m).
Proof.
  apply schema_ind; simpl; try done.
  - intros t IH v w. destruct v; simpl; auto.
  - intros t IH v w. destruct v; simpl; try done.
    pose proof (validate_items_is_ok (validate t) (conforms t) 0 l w IH) as Hl.
    destruct (validate_items (validate t) 0 l w) as [w' r]. simpl in *.
    by rewrite is_ok_result_map.
  - intros fs IH v w. destruct v; simpl; try done.
    specialize (IH m w). destruct (validate_fields fs m w) as [w' r].
    simpl in *. by rewrite is_ok_result_map.
  - intros n t IHt d rest IHrest m w.
    assert (∃ w1 r1, (match m !! n with
                      | Some v => validate t v w
                      | None => default_value d w
                      end) = (w1, r1) ∧
                     is_ok r1 = match m !! n with
                                | Some v => conforms t v
                                | None => negb (is_required d)
                                end) as (w1 & r1 & -> & Hr1).
    { destruct (m !! n) as [v|].
      - specialize (IHt v w). destruct (validate t v w); eauto.
      - pose proof (default_value_is_ok d w). destruct (default_value d w); eauto. }
    specialize (IHrest m w1). destruct (validate_fields rest m w1) as [w2 r2].
    simpl in *. by rewrite is_ok_both, is_ok_at_loc, Hr1, IHrest.
Qed.

Lemma validate_is_ok t v w : is_ok (validate t v w).2 = conforms t v.
Proof. apply validate_is_ok_conforms. Qed.

Lemma validate_fields_is_ok fs m w :
  is_ok (validate_fields fs m w).2 = conforms_fields fs m.
Proof. apply validate_is_ok_conforms. Qed.

(** ** One step per field *)

Lemma validate_fields_cons n t d rest m w :
  validate_fields (FCons n t d rest) m w =
    let '(w1, r1) := validate_field t d (m !! n) w in
    let '(w2, r2) := validate_fields rest m w1 in
    (w2, both (insert n) (at_loc (LKey n) r1) r2).
Proof. simpl. unfold validate_field. by destruct (m !! n). Qed.

Lemma validate_fields_cons_ok n t d rest m w w' out :
  validate_fields (FCons n t d rest) m w = (w', Ok out) →
  ∃ w1 v out',
    validate_field t d (m !! n) w = (w1, Ok v) ∧
    validate_fields rest m w1 = (w', Ok out') ∧
    out = <[n := v]> out'.
Proof.
  rewrite validate_fields_cons.
  destruct (validate_field t d (m !! n) w) as [w1 r1] eqn:H1.
  destruct (validate_fields rest m w1) as [w2 r2] eqn:H2.
  intros [= -> Hb]. apply both_ok in Hb as (v & out' & Hv & -> & ->).
  apply at_loc_ok in Hv as ->. by exists w1, v, out'.
Qed.

Lemma validate_items_ok (P : pyval → Prop) f i l w w' l' :
  (∀ v w1 w2 v', f v w1 = (w2, Ok v') → P v') →
  validate_items f i l w = (w', Ok l') → Forall P l'.
Proof.
  intros Hf. revert i w w' l'.
  induction l as [|x xs IH]; intros i w w' l'; simpl.
  - intros [= _ <-]. constructor.
  - destruct (f x w) as [w1 r1] eqn:Hx.
    destruct (validate_items f (S i) xs w1) as [w2 r2] eqn:Hxs.
    intros [= _ Hb]. apply both_ok in Hb as (v & vs & Hv & -> & ->).
    apply at_loc_ok in Hv as ->. constructor; eauto.
Qed.

Lemma elem_of_names_lookup_field fs n :
  n ∈ names fs ↔ is_Some (lookup_field fs n).
Proof.
  induction fs as [|n' t d rest IH]; simpl.
  - split; [by intros ?%elem_of_nil|by intros [? ?]].
  - rewrite elem_of_cons, IH. destruct (String.eqb_spec n' n) as [->|Hne].
    + split; eauto.
    + split; [intros [?|?]; [congruence|done]|auto].
Qed.

Lemma names_extends base own : names (extends base own) = names base ++ names own.
Proof. induction base; simpl; [done|by f_equal]. Qed.

(** The fields of a validated model: each holds the outcome of its own
    step, and there are no others. *)
Lemma validate_fields_lookup fs m w w' out n :
  validate_fields fs m w = (w', Ok out) →
  match lookup_field fs n with
  | Some (t, d) =>
      ∃ w1 w2 v, validate_field t d (m !! n) w1 = (w2, Ok v) ∧ out !! n = Some v
  | None => out !! n = None
  end.
Proof.
  revert w out. induction fs as [|n' t d rest IH]; intros w out.
  - simpl. intros [= _ <-]. apply lookup_empty.
  - intros (w1 & v & out' & Hv & Hrest & ->)%validate_fields_cons_ok. simpl.
    destruct (String.eqb_spec n' n) as [->|Hne].
    + exists w, w1, v. by rewrite lookup_insert_eq.
    + rewrite lookup_insert_ne by done. eapply IH, Hrest.
Qed.

(** ** Validated values are instances of their type *)

Context `{laws : !CodecLaws}.

Lemma str_validate_ok v v' : str_validate v = Ok v' → ∃ s, v' = PStr s.
Proof. destruct v; simpl; intros; simplify_eq; eauto. Qed.

Lemma constr_validate_ok n v v' :
  constr_validate n v = Ok v' → ∃ s, v' = PStr s ∧ n ≤ String.length s.
Proof.
  destruct v; simpl; try done.
  destruct (Nat.leb_spec n (String.length s)); [|done].
  intros [= <-]. eauto.
Qed.

Lemma email_validate_ok v v' :
  email_validate v = Ok v' → ∃ s, v' = PStr s ∧ EmailStr s = Some s.
Proof.
  destruct v; simpl; try done.
  destruct (EmailStr s) as [s'|] eqn:Hs; [|done].
  intros [= <-]. eauto using EmailStr_normal.
Qed.

Lemma of_option_ok k o v : of_option k o = Ok v → o = Some v.
Proof. destruct o; simpl; unfold fail; congruence. Qed.

Lemma uuid_validate_ok v v' : uuid_validate v = Ok v' → ∃ u, v' = PUuid u.
Proof.
  destruct v; simpl; try done; [|intros; simplify_eq; eauto].
  intros Ho%of_option_ok. destruct (uuid_parse s); simplify_eq/=; eauto.
Qed.

Lemma date_validate_ok v v' : date_validate v = Ok v' → ∃ d, v' = PDate d.
Proof.
  destruct v; simpl; try done; try (intros; simplify_eq; by eauto);
    intros Ho%of_option_ok;
    match type of Ho with PDate <$> ?o = _ => destruct o end;
    simplify_eq/=; eauto.
Qed.

Lemma datetime_validate_ok v v' :
  datetime_validate v = Ok v' → ∃ x, v' = PDatetime x.
Proof.
  destruct v; simpl; try done; try (intros; simplify_eq; by eauto);
    intros Ho%of_option_ok;
    match type of Ho with PDatetime <$> ?o = _ => destruct o end;
    simplify_eq/=; eauto.
Qed.

Lemma default_value_instance t d w w' v :
  default_ok t d = true → default_value d w = (w', Ok v) → instance_of t v.
Proof.
  destruct d as [|[]|[]], t; simpl; try done; intros _ [= _ <-]; eauto.
Qed.

Lemma has_fields_agree fs m m' :
  (∀ k, k ∈ names fs → m !! k = m' !! k) → has_fields fs m → has_fields fs m'.
Proof.
  induction fs as [|n t d rest IH]; simpl; [done|].
  intros Hk [(v & Hn & Hv) Hrest]. split.
  - exists v. rewrite <-Hk; [done|]. apply elem_of_cons. by left.
  - apply IH; [|done]. intros k ?. apply Hk, elem_of_cons. by right.
Qed.

Lemma wf_fields_cons n t d rest :
  wf_fields (FCons n t d rest) = true →
  (n ∉ names rest) ∧ default_ok t d = true ∧ wf t = true ∧ wf_fields rest = true.
Proof.
  simpl. rewrite !andb_true_iff, bool_decide_eq_true. tauto.
Qed.

Lemma validate_instance_of :
  (∀ t, wf t = true → ∀ v w w' v',
     validate t v w = (w', Ok v') → instance_of t v') ∧
  (∀ fs, wf_fields fs = true → ∀ m w w' out,
     validate_fields fs m w = (w', Ok out) →
     has_fields fs out ∧ ∀ k, is_Some (out !! k) → k ∈ names fs).
Proof.
  apply schema_ind.
  - intros _ v w w' v' [= _ Hv]. by apply str_validate_ok in Hv.
  - intros n _ v w w' v' [= _ Hv]. by apply constr_validate_ok in Hv.
  - intros _ v w w' v' [= _ Hv]. by apply email_validate_ok in Hv.
  - intros _ v w w' v' [= _ Hv]. by apply uuid_validate_ok in Hv.
  - intros _ v w w' v' [= _ Hv]. by apply date_validate_ok in Hv.
  - intros _ v w w' v' [= _ Hv]. by apply datetime_validate_ok in Hv.
  - intros t IH Hwf v w w' v'. simpl.
    destruct v; try (intros Hv; right; by eapply IH).
    intros [= _ <-]. by left.
  - intros t IH Hwf v w w' v'. simpl. destruct v; try done.
    destruct (validate_items (validate t) 0 l w) as [w1 r] eqn:Hl.
    intros [= _ (l' & -> & ->)%result_map_ok].
    exists l'. split; [done|]. eapply validate_items_ok, Hl. eauto.
  - intros fs IH Hwf v w w' v'. simpl. destruct v; try done.
    destruct (validate_fields fs m w) as [w1 r] eqn:Hm.
    intros [= _ (out & -> & ->)%result_map_ok].
    exists out. split; [done|]. eapply IH; eauto.
  - intros _ m w w' out [= _ <-]. split; [done|].
    intros k [? Hk]. by rewrite lookup_empty in Hk.
  - intros n t IHt d rest IHrest (Hn & Hd & Hwt & Hwr)%wf_fields_cons m w w' out.
    intros (w1 & v & out' & Hv & Hrest & ->)%validate_fields_cons_ok.
    destruct (IHrest Hwr _ _ _ _ Hrest) as [Hfs Hdom]. split; [split|].
    + exists v. rewrite lookup_insert_eq. split; [done|].
      unfold validate_field in Hv. destruct (m !! n).
      * eapply IHt; eauto.
      * eapply default_value_instance; eauto.
    + eapply has_fields_agree, Hfs. intros k Hk.
      rewrite lookup_insert_ne; [done|]. by intros ->.
    + intros k. simpl. rewrite lookup_insert. case_decide as Hkn.
      * intros _. subst k. apply elem_of_cons. by left.
      * intros Hk. apply elem_of_cons. right. by apply Hdom.
Qed.

Lemma validate_instance t v w w' v' :
  wf t = true → validate t v w = (w', Ok v') → instance_of t v'.
Proof. intros. by eapply (proj1 validate_instance_of). Qed.

Lemma model_validate_record fs p w w' r :
  wf_fields fs = true → model_validate fs p w = (w', Ok r) → record_of fs r.
Proof.
  intros Hwf Hr. exists r. split; [done|].
  by eapply (proj2 validate_instance_of).
Qed.

(** ** Dumping a validated value and validating it again *)

Lemma dump_None md t v : dump md t v = PNone → v = PNone.
Proof.
  revert v. induction t using ftype_fields_ind with (P0 := λ _, True);
    try done; intros v; destruct md, v; simpl; try done; auto.
Qed.

Lemma validate_items_map (P : pyval → Prop) f g i l w :
  (∀ x w', P x → f (g x) w' = (w', Ok x)) →
  Forall P l → validate_items f i (map g l) w = (w, Ok l).
Proof.
  intros Hf Hl. revert i. induction Hl as [|x xs Hx _ IH]; intros i; simpl.
  - done.
  - by rewrite (Hf x w Hx), IH.
Qed.

Lemma validate_dump_fields :
  (∀ t, wf t = true → ∀ md v w,
     instance_of t v → validate t (dump md t v) w = (w, Ok v)) ∧
  (∀ fs, wf_fields fs = true → ∀ md m m' w,
     has_fields fs m →
     (∀ k, k ∈ names fs → m' !! k = dump_fields md fs m !! k) →
     ∃ out, validate_fields fs m' w = (w, Ok out) ∧
            ∀ k, out !! k = if decide (k ∈ names fs) then m !! k else None).
Proof.
  apply schema_ind.
  - intros _ md v w [s ->]. done.
  - intros n _ md v w (s & -> & Hs). simpl.
    by destruct (Nat.leb_spec n (String.length s)); [|lia].
  - intros _ md v w (s & -> & Hs). simpl. unfold email_validate. by rewrite Hs.
  - intros _ md v w [u ->]. destruct md; simpl; [done|].
    by rewrite uuid_parse_str.
  - intros _ md v w [d ->]. destruct md; simpl; [done|].
    by rewrite date_parse_isoformat.
  - intros _ md v w [x ->]. destruct md; simpl; [done|].
    by rewrite datetime_parse_isoformat.
  - intros t IH Hwf md v w [->|Hv]; [done|].
    specialize (IH Hwf md v w Hv). simpl.
    destruct v; [done|..];
      (destruct (dump md t _) eqn:Hd; [by apply dump_None in Hd|done..]).
  - intros t IH Hwf md v w (l & -> & Hl). simpl.
    rewrite (validate_items_map (instance_of t)); [done| |done].
    intros x w' Hx. by apply IH.
  - intros fs IH Hwf md v w (m & -> & Hm & Hdom). simpl.
    destruct (IH Hwf md m (dump_fields md fs m) w Hm) as (out & -> & Hout);
      [done|].
    assert (out = m) as ->; [|done].
    apply map_eq. intros k. rewrite Hout.
    case_decide as Hk; [done|]. symmetry. apply eq_None_not_Some. auto.
  - intros _ md m m' w _ _. exists ∅. split; [done|]. intros k.
    rewrite lookup_empty. case_decide as Hk; [|done]. by apply elem_of_nil in Hk.
  - intros n t IHt d rest IHrest (Hn & Hd & Hwt & Hwr)%wf_fields_cons.
    intros md m m' w [(v & Hmn & Hv) Hrest] Hm'.
    assert (m' !! n = Some (dump md t v)) as Hm'n.
    { rewrite Hm' by (apply elem_of_cons; by left). simpl.
      by rewrite Hmn, lookup_insert_eq. }
    destruct (IHrest Hwr md m m' w Hrest) as (out & Hout & Hlook).
    { intros k Hk. rewrite Hm' by (apply elem_of_cons; by right). simpl.
      rewrite Hmn, lookup_insert_ne; [done|]. by intros ->. }
    exists (<[n := v]> out). split.
    + rewrite validate_fields_cons, Hm'n. simpl.
      by rewrite (IHt Hwt md v w Hv), Hout.
    + intros k. rewrite lookup_insert. simpl. case_decide as Hkn.
      * subst k. rewrite decide_True by (apply elem_of_cons; by left). done.
      * rewrite Hlook. case_decide as Hk.
        -- rewrite decide_True by (apply elem_of_cons; by right). done.
        -- rewrite decide_False; [done|].
           intros [?|?]%elem_of_cons; [by subst|done].
Qed.

Lemma validate_dump md t v w :
  wf t = true → instance_of t v → validate t (dump md t v) w = (w, Ok v).
Proof. intros. by apply (proj1 validate_dump_fields). Qed.

(** A record of a class, dumped in either mode and validated against the
    class, is read back as it was, and no default is drawn. *)
Lemma model_validate_dump md fs r w :
  wf_fields fs = true → record_of fs r →
  model_validate fs (model_dump md fs r) w = (w, Ok r).
Proof.
  intros Hwf Hr. pose proof (validate_dump md (TModel fs) (PDict r) w Hwf Hr) as Hv.
  simpl in Hv. unfold model_validate, model_dump.
  destruct (validate_fields fs (dump_fields md fs r) w) as [w' [out|es]];
    simpl in Hv; by simplify_eq.
Qed.

(** In Python mode the dump of a validated value is the value. *)
Lemma dump_python_fields :
  (∀ t v, instance_of t v → dump python t v = v) ∧
  (∀ fs m, has_fields fs m → ∀ k,
     dump_fields python fs m !! k =
       if decide (k ∈ names fs) then m !! k else None).
Proof.
  apply schema_ind; try done.
  - intros t IH v [->|Hv]; [done|]. simpl. rewrite (IH v Hv). by destruct v.
  - intros t IH v (l & -> & Hl). simpl. f_equal.
    induction Hl as [|x xs Hx Hxs IHl]; simpl; [done|]. by rewrite (IH x Hx), IHl.
  - intros fs IH v (m & -> & Hm & Hdom). simpl. f_equal. apply map_eq.
    intros k. rewrite (IH m Hm). case_decide as Hk; [done|].
    symmetry. apply eq_None_not_Some. auto.
  - intros n t IHt d rest IHrest m [(v & Hmn & Hv) Hrest] k. simpl.
    rewrite Hmn, (IHt v Hv), lookup_insert, (IHrest m Hrest).
    case_decide as Hkn.
    + subst k. rewrite decide_True by (apply elem_of_cons; by left). done.
    + case_decide as Hk.
      * rewrite decide_True by (apply elem_of_cons; by right). done.
      * rewrite decide_False; [done|].
        intros [?|?]%elem_of_cons; [by subst|done].
Qed.

Lemma dump_python t v : instance_of t v → dump python t v = v.
Proof. apply dump_python_fields. Qed.

Lemma model_dump_python fs r : record_of fs r → model_dump python fs r = r.
Proof. intros Hr. apply (dump_python (TModel fs)) in Hr. by simplify_eq/=. Qed.

(** ** The world only advances *)

Lemma world_le_refl w : world_le w w.
Proof. by split. Qed.

Lemma world_le_trans w1 w2 w3 : world_le w1 w2 → world_le w2 w3 → world_le w1 w3.
Proof. unfold world_le. lia. Qed.

Lemma call_factory_le f w : world_le w (call_factory f w).1.
Proof. destruct f; unfold world_le; simpl; lia. Qed.

Lemma default_value_le d w : world_le w (default_value d w).1.
Proof.
  destruct d as [| |f]; simpl; try apply world_le_refl.
  pose proof (call_factory_le f w). by destruct (call_factory f w).
Qed.

Lemma validate_items_le f i l w :
  (∀ v w', world_le w' (f v w').1) → world_le w (validate_items f i l w).1.
Proof.
  intros Hf. revert i w. induction l as [|x xs IH]; intros i w; simpl.
  - apply world_le_refl.
  - pose proof (Hf x w) as Hx. destruct (f x w) as [w1 r1].
    pose proof (IH (S i) w1) as Hxs.
    destruct (validate_items f (S i) xs w1) as [w2 r2].
    simpl in *. by eapply world_le_trans.
Qed.

Lemma validate_world_le :
  (∀ t v w, world_le w (validate t v w).1) ∧
  (∀ fs m w, world_le w (validate_fields fs m w).1).
Proof.
  apply schema_ind; simpl; try (intros; apply world_le_refl).
  - intros t IH v w. destruct v; simpl; auto using world_le_refl.
  - intros t IH v w. destruct v; simpl; try apply world_le_refl.
    pose proof (validate_items_le (validate t) 0 l w IH).
    by destruct (validate_items (validate t) 0 l w).
  - intros fs IH v w. destruct v; simpl; try apply world_le_refl.
    pose proof (IH m w). by destruct (validate_fields fs m w).
  - intros n t IHt d rest IHrest m w.
    assert (world_le w (match m !! n with
                        | Some v => validate t v w
                        | None => default_value d w
                        end).1) as Hstep.
    { destruct (m !! n); [apply IHt|apply default_value_le]. }
    destruct (match m !! n with
              | Some v => validate t v w
              | None => default_value d w
              end) as [w1 r1].
    pose proof (IHrest m w1). destruct (validate_fields rest m w1).
    simpl in *. by eapply world_le_trans.
Qed.

Lemma validate_field_le t d o w : world_le w (validate_field t d o w).1.
Proof.
  destruct o; simpl; [apply validate_world_le|apply default_value_le].
Qed.

Lemma validate_fields_le fs m w : world_le w (validate_fields fs m w).1.
Proof. apply validate_world_le. Qed.

(** ** Classes built by inheritance *)

Lemma both_insert_union n
    (a : result pyval) (b c : result (gmap string pyval)) :
  both (insert n) a (both (∪) b c) = both (∪) (both (insert n) a b) c.
Proof.
  destruct a, b, c; simpl; try done.
  - by rewrite insert_union_l.
  - by rewrite app_assoc.
Qed.

Lemma validate_fields_extends base own m w :
  validate_fields (extends base own) m w =
    let '(w1, r1) := validate_fields base m w in
    let '(w2, r2) := validate_fields own m w1 in
    (w2, both (∪) r1 r2).
Proof.
  revert w. induction base as [|n t d rest IH]; intros w.
  - simpl. destruct (validate_fields own m w) as [w2 [b|es]]; simpl; [|done].
    by rewrite (left_id_L ∅ (∪)).
  - change (extends (FCons n t d rest) own) with (FCons n t d (extends rest own)).
    rewrite !validate_fields_cons.
    destruct (validate_field t d (m !! n) w) as [w1 r1]. rewrite IH.
    destruct (validate_fields rest m w1) as [w2 r2].
    destruct (validate_fields own m w2) as [w3 r3].
    by rewrite both_insert_union.
Qed.

(** Only the keys that name a field are looked at. *)
Lemma validate_fields_agree fs m m' w :
  (∀ k, k ∈ names fs → m !! k = m' !! k) →
  validate_fields fs m w = validate_fields fs m' w.
Proof.
  revert w. induction fs as [|n t d rest IH]; intros w Hk; [done|].
  rewrite !validate_fields_cons, <-Hk by (apply elem_of_cons; by left).
  destruct (validate_field t d (m !! n) w) as [w1 r1].
  rewrite IH; [done|]. intros k ?. apply Hk, elem_of_cons. by right.
Qed.

Lemma has_fields_extends base own m :
  has_fields (extends base own) m ↔ has_fields base m ∧ has_fields own m.
Proof. induction base; simpl; [tauto|]. rewrite IHbase. tauto. Qed.

Lemma has_fields_lookup fs m n t d :
  has_fields fs m → lookup_field fs n = Some (t, d) →
  ∃ v, m !! n = Some v ∧ instance_of t v.
Proof.
  induction fs as [|n' t' d' rest IH]; simpl; [done|].
  intros [Hv Hrest]. destruct (String.eqb_spec n' n) as [->|Hne]; [|eauto].
  by intros [= <- <-].
Qed.

Lemma lookup_field_has_fields fs m :
  (∀ n t d, lookup_field fs n = Some (t, d) →
     ∃ v, m !! n = Some v ∧ instance_of t v) →
  wf_fields fs = true → has_fields fs m.
Proof.
  induction fs as [|n' t' d' rest IH]; [done|].
  intros Hl (Hn & _ & _ & Hwf)%wf_fields_cons. split.
  - apply (Hl n' t' d'). simpl. by rewrite String.eqb_refl.
  - apply IH; [|done]. intros n t d Hnt. apply (Hl n t d). simpl.
    destruct (String.eqb_spec n' n) as [->|Hne]; [|done].
    destruct Hn. apply elem_of_names_lookup_field. eauto.
Qed.

(** A record validated against its own class, or a base class of it. *)
Lemma validate_fields_has_fields fs m w :
  wf_fields fs = true → has_fields fs m →
  ∃ out, validate_fields fs m w = (w, Ok out) ∧
         ∀ k, out !! k = if decide (k ∈ names fs) then m !! k else None.
Proof.
  intros Hwf Hm.
  apply (proj2 validate_dump_fields fs Hwf python m m w Hm).
  intros k Hk. rewrite (proj2 dump_python_fields fs m Hm).
  by rewrite decide_True.
Qed.

(** ** Failures *)

Lemma validate_field_is_ok t d o w :
  is_ok (validate_field t d o w).2 = field_conforms t d o.
Proof.
  destruct o; simpl; [apply validate_is_ok|apply default_value_is_ok].
Qed.

Lemma conforms_fields_cons n t d rest m :
  conforms_fields (FCons n t d rest) m =
    field_conforms t d (m !! n) && conforms_fields rest m.
Proof. done. Qed.

(** One failing field makes the whole payload fail. *)
Lemma conforms_fields_false fs m n t d :
  lookup_field fs n = Some (t, d) →
  field_conforms t d (m !! n) = false →
  conforms_fields fs m = false.
Proof.
  induction fs as [|n' t' d' rest IH]; [done|].
  rewrite conforms_fields_cons. simpl lookup_field.
  destruct (String.eqb_spec n' n) as [->|Hne].
  - intros [= <- <-] ->. done.
  - intros Hl Hf. rewrite (IH Hl Hf). apply andb_false_r.
Qed.

Lemma conforms_fields_true fs m :
  conforms_fields fs m = true →
  ∀ n t d, lookup_field fs n = Some (t, d) → field_conforms t d (m !! n) = true.
Proof.
  induction fs as [|n' t' d' rest IH]; [done|].
  rewrite conforms_fields_cons. intros [H1 H2]%andb_true_iff n t d. simpl.
  destruct (String.eqb_spec n' n) as [->|Hne]; [|by apply IH].
  by intros [= <- <-].
Qed.

(** A [ValidationError] always carries at least one error. *)
Lemma validate_items_errors f i l w es :
  (∀ v w' es', (f v w').2 = Err es' → es' ≠ []) →
  (validate_items f i l w).2 = Err es → es ≠ [].
Proof.
  intros Hf. revert i w es. induction l as [|x xs IH]; intros i w es; simpl.
  - done.
  - pose proof (Hf x w) as Hx. destruct (f x w) as [w1 r1].
    pose proof (IH (S i) w1) as Hxs.
    destruct (validate_items f (S i) xs w1) as [w2 r2]. simpl in *.
    destruct r1 as [v|es1], r2 as [vs|es2]; simpl; intros [= <-]; eauto.
    + intros Hmap. apply map_eq_nil in Hmap. by eapply Hx.
    + intros [Hmap _]%app_eq_nil. apply map_eq_nil in Hmap. by eapply Hx.
Qed.

Lemma default_value_errors d w es : (default_value d w).2 = Err es → es ≠ [].
Proof. destruct d as [| |[]]; simpl; unfold fail; by intros [= <-]. Qed.

Lemma validate_errors :
  (∀ t v w es, (validate t v w).2 = Err es → es ≠ []) ∧
  (∀ fs m w es, (validate_fields fs m w).2 = Err es → es ≠ []).
Proof.
  apply schema_ind; simpl.
  - intros [] w es; simpl; unfold fail; by intros [= <-].
  - intros n [] w es; simpl; unfold fail; try by intros [= <-].
    destruct (n <=? String.length s); [done|by intros [= <-]].
  - intros [] w es; simpl; unfold fail; try by intros [= <-].
    destruct (EmailStr s); [done|by intros [= <-]].
  - intros [] w es; simpl; unfold fail; try by intros [= <-].
    destruct (uuid_parse s); simpl; [done|by intros [= <-]].
  - intros [] w es; simpl; unfold fail; try by intros [= <-].
    + destruct (date_of_number lit); simpl; [done|by intros [= <-]].
    + destruct (date_parse s); simpl; [done|by intros [= <-]].
    + destruct (date_of_datetime t); simpl; [done|by intros [= <-]].
  - intros [] w es; simpl; unfold fail; try by intros [= <-].
    + destruct (datetime_of_number lit); simpl; [done|by intros [= <-]].
    + destruct (datetime_parse s); simpl; [done|by intros [= <-]].
  - intros t IH [] w es; simpl; eauto.
  - intros t IH [] w es; simpl; unfold fail; try by intros [= <-].
    pose proof (validate_items_errors (validate t) 0 l w) as Hl.
    destruct (validate_items (validate t) 0 l w) as [w' [l'|es']]; simpl in *;
      [done|]. intros [= <-]. eauto.
  - intros fs IH [] w es; simpl; unfold fail; try by intros [= <-].
    pose proof (IH m w) as Hm.
    destruct (validate_fields fs m w) as [w' [l'|es']]; simpl in *;
      [done|]. intros [= <-]. eauto.
  - done.
  - intros n t IHt d rest IHrest m w es.
    assert (∀ es', (match m !! n with
                    | Some v => validate t v w
                    | None => default_value d w
                    end).2 = Err es' → es' ≠ []) as Hstep.
    { destruct (m !! n); [apply IHt|apply default_value_errors]. }
    destruct (match m !! n with
              | Some v => validate t v w
              | None => default_value d w
              end) as [w1 r1].
    pose proof (IHrest m w1) as Hrest.
    destruct (validate_fields rest m w1) as [w2 r2]. simpl in *.
    destruct r1 as [v|es1], r2 as [vs|es2]; simpl; intros [= <-]; eauto.
    + intros Hmap. apply map_eq_nil in Hmap. by eapply Hstep.
    + intros [Hmap _]%app_eq_nil. apply map_eq_nil in Hmap. by eapply Hstep.
Qed.

(** A required field the payload does not carry is reported as missing,
    under its name. *)
Lemma validate_fields_missing fs m w n t :
  lookup_field fs n = Some (t, Required) → m !! n = None →
  ∃ es, (validate_fields fs m w).2 = Err es ∧
        {| loc := [LKey n]; kind := missing |} ∈ es.
Proof.
  intros Hl Hm. revert w. induction fs as [|n' t' d' rest IH]; intros w; [done|].
  rewrite validate_fields_cons. simpl in Hl.
  destruct (String.eqb_spec n' n) as [->|Hne].
  - injection Hl as -> ->. rewrite Hm. simpl.
    destruct (validate_fields rest m w) as [w2 [vs|es2]]; simpl;
      eexists; (split; [done|]); apply elem_of_cons; by left.
  - destruct (validate_field t' d' (m !! n') w) as [w1 r1].
    destruct (IH Hl w1) as (es2 & Hes & Hin).
    destruct (validate_fields rest m w1) as [w2 r2]. simpl in *. subst r2.
    destruct r1 as [v|es1]; simpl; eexists; (split; [done|]); [done|].
    apply elem_of_app. by right.
Qed.

(** ** A Read class constructed from validated Create fields *)

Lemma record_of_keys fs r k : record_of fs r → k ∉ names fs → r !! k = None.
Proof.
  intros (m & [= <-] & _ & Hdom) Hk. apply eq_None_not_Some. auto.
Qed.

(** A Read class constructed from the validated fields of a Create class
    that shares its base: the base fields as validated, then the fields the
    Read class adds, from their defaults. *)
Lemma read_of_create_extends Base Own Own' p w w1 c :
  wf_fields Base = true → wf_fields (extends Base Own) = true →
  (∀ k, k ∈ names Own' → k ∉ names (extends Base Own)) →
  model_validate (extends Base Own) p w = (w1, Ok c) →
  ∃ base,
    (∀ k, base !! k = if decide (k ∈ names Base) then c !! k else None) ∧
    model_validate (extends Base Own')
      (model_dump python (extends Base Own) c) w1 =
      let '(w2, r) := validate_fields Own' ∅ w1 in (w2, both (∪) (Ok base) r).
Proof.
  intros HwfB HwfC Hnew Hc.
  pose proof (model_validate_record _ _ _ _ _ HwfC Hc) as Hrec.
  destruct (Hrec) as (? & [= <-] & Hfs & Hdom).
  apply has_fields_extends in Hfs as [Hbase _].
  destruct (validate_fields_has_fields Base c w1 HwfB Hbase) as (base & Hb & Hlook).
  exists base. split; [done|].
  rewrite (model_dump_python _ _ Hrec).
  unfold model_validate. rewrite validate_fields_extends, Hb.
  rewrite (validate_fields_agree Own' c ∅); [done|].
  intros k Hk. rewrite lookup_empty. eapply record_of_keys; eauto.
Qed.

(** ** The update step *)

Lemma validate_None t w w' v : validate t PNone w = (w', Ok v) → v = PNone.
Proof. destruct t; simpl; unfold fail; by intros [= _ <-]. Qed.

(** A value validated for [Optional[t]], validated again for [t]. *)
Lemma validate_optional_instance t x w w' v :
  wf t = true → instance_of (TOptional t) x →
  validate t x w = (w', Ok v) → v = x.
Proof.
  intros Hwf [->|Hx].
  - apply validate_None.
  - pose proof (validate_dump python t x w Hwf Hx) as Hv.
    rewrite (dump_python t x Hx) in Hv. congruence.
Qed.

Lemma elem_of_model_fields_set fs (p : gmap string pyval) k :
  k ∈ model_fields_set fs p ↔ k ∈ names fs ∧ is_Some (p !! k).
Proof.
  unfold model_fields_set.
  by rewrite elem_of_intersection, elem_of_list_to_set, elem_of_dom.
Qed.

Lemma exclude_unset_lookup set (u : gmap string pyval) k :
  exclude_unset set u !! k = if decide (k ∈ set) then u !! k else None.
Proof.
  unfold exclude_unset. rewrite map_lookup_filter.
  destruct (u !! k) as [x|]; simpl; [|by case_decide].
  case_decide; [by rewrite option_guard_True|by rewrite option_guard_False].
Qed.

(** What the step hands to the Read class. *)
Lemma update_unfold Update Read stored p w w1 u :
  wf_fields Update = true → record_of Read stored →
  model_validate Update p w = (w1, Ok u) →
  update Update Read stored p w =
    model_validate Read
      (<["updated_at" := (call_factory Futcnow w1).2]>
         (dict_update stored (exclude_unset (model_fields_set Update p) u)))
      (call_factory Futcnow w1).1.
Proof.
  intros Hwf Hs Hu. unfold update, and_then. rewrite Hu.
  rewrite (model_dump_python Read stored Hs).
  by rewrite (model_dump_python Update u (model_validate_record _ _ _ _ _ Hwf Hu)).
Qed.

Lemma merged_lookup Update (stored p u : gmap string pyval) now k :
  k ≠ "updated_at" →
  (<["updated_at" := now]>
     (dict_update stored (exclude_unset (model_fields_set Update p) u))) !! k =
  match exclude_unset (model_fields_set Update p) u !! k with
  | Some x => Some x
  | None => stored !! k
  end.
Proof.
  intros Hk. rewrite lookup_insert_ne by done. unfold dict_update.
  rewrite lookup_union.
  destruct (exclude_unset _ u !! k), (stored !! k); done.
Qed.

(** One field of an update: overwritten when the payload carries it, kept
    when it does not. *)
Lemma update_field Update Read stored p w w' r' f tu du tr dr :
  wf_fields Update = true → wf_fields Read = true → wf tr = true →
  record_of Read stored →
  lookup_field Update f = Some (tu, du) →
  lookup_field Read f = Some (tr, dr) →
  tu = TOptional tr ∨ tu = tr →
  f ≠ "updated_at" →
  update Update Read stored p w = (w', Ok r') →
  ∃ w1 u, model_validate Update p w = (w1, Ok u) ∧
    (is_Some (p !! f) → r' !! f = u !! f) ∧
    (p !! f = None → r' !! f = stored !! f).
Proof.
  intros HwfU HwfR Hwtr Hs HlU HlR Htu Hf Hup.
  destruct (model_validate Update p w) as [w1 [u|es]] eqn:Hu;
    [|by unfold update, and_then in Hup; rewrite Hu in Hup].
  exists w1, u. split; [done|].
  rewrite (update_unfold _ _ _ _ _ _ _ HwfU Hs Hu) in Hup.
  pose proof (validate_fields_lookup _ _ _ _ _ f Hup) as Hr'.
  rewrite HlR in Hr'. destruct Hr' as (wa & wb & v & Hv & Hr'f).
  rewrite merged_lookup, exclude_unset_lookup in Hv by done.
  pose proof (model_validate_record _ _ _ _ _ HwfU Hu) as (? & [= <-] & HfsU & _).
  destruct (has_fields_lookup _ _ _ _ _ HfsU HlU) as (x & Hux & Hx).
  destruct Hs as (? & [= <-] & HfsR & _).
  destruct (has_fields_lookup _ _ _ _ _ HfsR HlR) as (y & Hsy & Hy).
  assert (f ∈ names Update) as HfU by (apply elem_of_names_lookup_field; eauto).
  split.
  - intros Hp. rewrite decide_True, Hux in Hv
      by (apply elem_of_model_fields_set; done).
    simpl in Hv. rewrite Hr'f, Hux. f_equal.
    eapply validate_optional_instance; [done| |done].
    destruct Htu as [->| ->]; [done|by right].
  - intros Hp. rewrite decide_False, Hsy in Hv.
    2:{ intros [_ [? ?]]%elem_of_model_fields_set. congruence. }
    simpl in Hv. rewrite Hr'f, Hsy. f_equal.
    eapply validate_optional_instance; [done| |done]. by right.
Qed.

(** An update whose set fields hold values the Read class accepts
    succeeds, and the new record is the merged dictionary. *)
Lemma update_merged Update Read stored p w w1 u dr :
  wf_fields Update = true → wf_fields Read = true →
  record_of Read stored →
  lookup_field Read "updated_at" = Some (TDatetime, dr) →
  model_validate Update p w = (w1, Ok u) →
  (∀ f, f ∈ model_fields_set Update p →
     ∃ x tr d, u !! f = Some x ∧ lookup_field Read f = Some (tr, d) ∧
               instance_of tr x) →
  update Update Read stored p w =
    ((call_factory Futcnow w1).1,
     Ok (<["updated_at" := (call_factory Futcnow w1).2]>
           (dict_update stored (exclude_unset (model_fields_set Update p) u)))).
Proof.
  intros HwfU HwfR Hs Hupd Hu Hset.
  rewrite (update_unfold _ _ _ _ _ _ _ HwfU Hs Hu).
  set (merged := <["updated_at" := _]> _).
  assert (record_of Read merged) as Hm.
  { destruct Hs as (? & [= <-] & HfsR & HdomR).
    exists merged. split; [done|]. split.
    - apply lookup_field_has_fields; [|done]. intros n t d Hn.
      destruct (decide (n = "updated_at")) as [->|Hne].
      + rewrite Hupd in Hn. injection Hn as <- <-.
        exists (PDatetime (utcnow_at (clock_calls w1))).
        split; [apply lookup_insert_eq|by eexists].
      + unfold merged. rewrite merged_lookup, exclude_unset_lookup by done.
        case_decide as Hin.
        * destruct (Hset n Hin) as (x & tr & d' & -> & Hl & Hx).
          rewrite Hn in Hl. injection Hl as <- <-. eauto.
        * by eapply has_fields_lookup.
    - intros k. destruct (decide (k = "updated_at")) as [->|Hne].
      + intros _. apply elem_of_names_lookup_field. eauto.
      + unfold merged. rewrite merged_lookup, exclude_unset_lookup by done.
        case_decide as Hin.
        * intros _. destruct (Hset k Hin) as (x & tr & d' & _ & Hl & _).
          apply elem_of_names_lookup_field. eauto.
        * apply HdomR. }
  pose proof (model_validate_dump python Read merged
                (call_factory Futcnow w1).1 HwfR Hm) as Hv.
  by rewrite (model_dump_python Read merged Hm) in Hv.
Qed.

End Theory.

(** * The Owner and Pet models *)

Section Repository.
Context `{codec : Codec} `{oracle : Oracle}.
Variable AddressBase : fields.
Hypothesis AddressBase_wf : wf_fields AddressBase = true.

Ltac each_pair H :=
  repeat (apply elem_of_cons in H as [[= -> ->]|H]);
  [..|by apply elem_of_nil in H].

Ltac by_names := apply (bool_decide_unpack _); vm_compute; exact I.

Ltac wf_class := cbn; rewrite ?AddressBase_wf; reflexivity.

Ltac each_name H :=
  repeat (apply elem_of_cons in H as [->|H]); [..|by apply elem_of_nil in H].

Lemma OwnerCreate_wf : wf_fields (OwnerCreate AddressBase) = true.
Proof using AddressBase_wf. wf_class. Qed.

Lemma OwnerUpdate_wf : wf_fields (OwnerUpdate AddressBase) = true.
Proof using AddressBase_wf. wf_class. Qed.

Lemma OwnerRead_wf : wf_fields (OwnerRead AddressBase) = true.
Proof using AddressBase_wf. wf_class. Qed.

Lemma PetBase_wf : wf_fields PetBase = true.
Proof. reflexivity. Qed.

Lemma PetCreate_wf : wf_fields PetCreate = true.
Proof. reflexivity. Qed.

Lemma PetUpdate_wf : wf_fields PetUpdate = true.
Proof. reflexivity. Qed.

Lemma PetRead_wf : wf_fields (PetRead AddressBase) = true.
Proof using AddressBase_wf. wf_class. Qed.

(** ** Empty update payloads *)

(** C10. The empty payload is a valid [OwnerUpdate] and a valid
    [PetUpdate]: validation succeeds without touching the world, every
    field of the validated payload is [None], and no field counts as set. *)
Theorem empty_update_validates (w : World) :
  (∃ u, model_validate (OwnerUpdate AddressBase) ∅ w = (w, Ok u) ∧
        (∀ n, n ∈ names (OwnerUpdate AddressBase) → u !! n = Some PNone) ∧
        (∀ n, u !! n = Some PNone → n ∈ names (OwnerUpdate AddressBase)) ∧
        model_fields_set (OwnerUpdate AddressBase) ∅ = ∅) ∧
  (∃ u, model_validate PetUpdate ∅ w = (w, Ok u) ∧
        (∀ n, n ∈ names PetUpdate → u !! n = Some PNone) ∧
        (∀ n, u !! n = Some PNone → n ∈ names PetUpdate) ∧
        model_fields_set PetUpdate ∅ = ∅).
Proof.
  split; eexists; (split; [reflexivity|]); (split; [|split]).
  - intros n Hn. simpl in Hn. each_name Hn; reflexivity.
  - intros n Hn. apply elem_of_names_lookup_field.
    pose proof (validate_fields_lookup (OwnerUpdate AddressBase) ∅ w w _ n
                  eq_refl) as Hl.
    destruct (lookup_field (OwnerUpdate AddressBase) n); [done|congruence].
  - unfold model_fields_set. rewrite dom_empty_L. apply (right_absorb_L ∅ (∩)).
  - intros n Hn. simpl in Hn. each_name Hn; reflexivity.
  - intros n Hn. apply elem_of_names_lookup_field.
    pose proof (validate_fields_lookup PetUpdate ∅ w w _ n eq_refl) as Hl.
    destruct (lookup_field PetUpdate n); [done|congruence].
  - unfold model_fields_set. rewrite dom_empty_L. apply (right_absorb_L ∅ (∩)).
Qed.

(** ** Rejected payloads *)

(** C5. A Pet Create payload that lacks [name], [species] or [owner_id]
    fails validation and the missing field is reported under its name;
    there is no validated payload, so whatever a creation step would build
    from one (a Read record) is not built: the step ends with the error. *)
Theorem pet_create_missing_required (p : gmap string pyval) (w : World) n :
  n ∈ ["name"; "species"; "owner_id"] → p !! n = None →
  ∃ es,
    (model_validate PetCreate p w).2 = Err es ∧
    {| loc := [LKey n]; kind := missing |} ∈ es ∧
    (∀ c, (model_validate PetCreate p w).2 ≠ Ok c) ∧
    ∀ (build : gmap string pyval → VM (gmap string pyval)),
      (and_then (model_validate PetCreate p) build w).2 = Err es.
Proof.
  intros Hn Hp.
  assert (∃ t, lookup_field PetCreate n = Some (t, Required)) as [t Ht].
  { each_name Hn; by eexists. }
  destruct (validate_fields_missing PetCreate p w n t Ht Hp) as (es & Hes & Hin).
  exists es. split; [done|]. split; [done|].
  unfold and_then, model_validate in *.
  destruct (validate_fields PetCreate p w) as [w1 r1]. simpl in Hes. subst r1.
  by split.
Qed.

(** C8. Whatever class of the repository a payload is validated against,
    one field that fails (a required field not carried, or a carried value
    its type refuses) makes validation end with a non-empty error list and
    with no validated value, however many of the other fields are valid. *)
Theorem rejected_in_full (fs : fields) (p : gmap string pyval) (w : World) n t d :
  fs ∈ [OwnerBase AddressBase; OwnerCreate AddressBase;
        OwnerUpdate AddressBase; OwnerRead AddressBase;
        PetBase; PetCreate; PetUpdate; PetRead AddressBase] →
  lookup_field fs n = Some (t, d) →
  field_conforms t d (p !! n) = false →
  ∃ es, (model_validate fs p w).2 = Err es ∧ es ≠ [] ∧
        ∀ r, (model_validate fs p w).2 ≠ Ok r.
Proof.
  intros _ Hl Hf.
  pose proof (validate_fields_is_ok fs p w) as Hok.
  rewrite (conforms_fields_false fs p n t d Hl Hf) in Hok.
  apply is_ok_false in Hok as [es Hes]. exists es. split; [done|].
  split; [by eapply validate_errors|]. unfold model_validate. congruence.
Qed.

(** ** Empty strings *)

Lemma field_conforms_insert fs n t d v (p : gmap string pyval) :
  wf_fields fs = true → lookup_field fs n = Some (t, d) →
  conforms t v = true → conforms_fields fs p = true →
  conforms_fields fs (<[n := v]> p) = true.
Proof.
  induction fs as [|n' t' d' rest IH]; [done|].
  intros (Hn' & _ & _ & Hwf)%wf_fields_cons. rewrite !conforms_fields_cons.
  simpl lookup_field. destruct (String.eqb_spec n' n) as [->|Hne].
  - intros [= <- <-] Hv [_ Hrest]%andb_true_iff.
    rewrite lookup_insert_eq. simpl. rewrite Hv. simpl.
    clear IH. induction rest as [|n2 t2 d2 rest IH2]; [done|].
    apply wf_fields_cons in Hwf as (? & _ & _ & Hwf).
    rewrite conforms_fields_cons in *.
    apply andb_true_iff in Hrest as [H2 Hrest].
    rewrite lookup_insert_ne
      by (intros ->; apply Hn', elem_of_cons; by left).
    rewrite H2. simpl. apply IH2; [|done..].
    intros Hin. apply Hn', elem_of_cons. by right.
  - intros Hl Hv [H1 Hrest]%andb_true_iff.
    rewrite lookup_insert_ne by done. rewrite H1. simpl. by apply IH.
Qed.

Lemma empty_text_field fs n d (p : gmap string pyval) w :
  wf_fields fs = true → lookup_field fs n = Some (TStr, d) →
  is_ok (model_validate fs p w).2 = true →
  ∃ w' c, model_validate fs (<[n := PStr ""]> p) w = (w', Ok c) ∧
          c !! n = Some (PStr "").
Proof.
  intros Hwf Hl Hok. unfold model_validate in *.
  rewrite validate_fields_is_ok in Hok.
  pose proof (field_conforms_insert fs n TStr d (PStr "") p Hwf Hl eq_refl Hok)
    as Hok'.
  rewrite <-(validate_fields_is_ok _ _ w) in Hok'.
  destruct (validate_fields fs (<[n:=PStr ""]> p) w) as [w' [c|es]] eqn:Hc;
    [|done].
  exists w', c. split; [done|].
  pose proof (validate_fields_lookup _ _ _ _ _ n Hc) as Hn. rewrite Hl in Hn.
  destruct Hn as (wa & wb & v & Hv & ->). rewrite lookup_insert_eq in Hv.
  simpl in Hv. congruence.
Qed.

(** C9. An Owner Create payload stays valid when [first_name] or
    [last_name] is set to the empty string, a Pet Create payload when
    [name] or [species] is; the validated payload holds the empty string. *)
Theorem empty_text_accepted (Create : fields)
    (p : gmap string pyval) (w : World) n :
  (Create, n) ∈ [(OwnerCreate AddressBase, "first_name");
                 (OwnerCreate AddressBase, "last_name");
                 (PetCreate, "name"); (PetCreate, "species")] →
  is_ok (model_validate Create p w).2 = true →
  ∃ w' c,
    model_validate Create (<[n := PStr ""]> p) w = (w', Ok c) ∧
    c !! n = Some (PStr "").
Proof using AddressBase_wf.
  intros Hin Hok.
  each_pair Hin;
    (eapply empty_text_field;
       [first [apply OwnerCreate_wf|apply PetCreate_wf]|reflexivity|done]).
Qed.

(** ** When Owner creation fails *)

Lemma conforms_fields_false_inv fs (m : gmap string pyval) :
  wf_fields fs = true → conforms_fields fs m = false →
  ∃ n t d, lookup_field fs n = Some (t, d) ∧
           field_conforms t d (m !! n) = false.
Proof.
  induction fs as [|n' t' d' rest IH]; [done|].
  intros (Hn' & _ & _ & Hwf)%wf_fields_cons. rewrite conforms_fields_cons.
  intros [Hhd|Hrest]%andb_false_iff.
  - exists n', t', d'. simpl. by rewrite String.eqb_refl.
  - destruct (IH Hwf Hrest) as (n & t & d & Hl & Hf). exists n, t, d.
    split; [|done]. simpl. destruct (String.eqb_spec n' n) as [->|]; [|done].
    destruct Hn'. apply elem_of_names_lookup_field. eauto.
Qed.

Lemma not_an_email_refused : EmailStr "not-an-email" = None.
Proof. reflexivity. Qed.

(** C4. Validation of an Owner Create payload fails exactly when
    [first_name], [last_name] or [email] is not carried, or a carried field
    is not of its declared type, or the address carried is a string that
    is not a valid address.  The string "not-an-email" is such a string,
    and a payload carrying it is refused as Create and as Update payload. *)
Theorem owner_create_fails_iff (p : gmap string pyval) (w : World) :
  ((∃ es, (model_validate (OwnerCreate AddressBase) p w).2 = Err es) ↔
     (∃ n, n ∈ ["first_name"; "last_name"; "email"] ∧ p !! n = None) ∨
     (∃ n t d v, lookup_field (OwnerCreate AddressBase) n = Some (t, d) ∧
                 p !! n = Some v ∧ well_typed t v = false) ∨
     (∃ s, p !! "email" = Some (PStr s) ∧ EmailStr s = None)) ∧
  (p !! "email" = Some (PStr "not-an-email") →
     (∃ es, (model_validate (OwnerCreate AddressBase) p w).2 = Err es) ∧
     (∃ es, (model_validate (OwnerUpdate AddressBase) p w).2 = Err es)).
Proof using AddressBase_wf.
  split.
  - rewrite <-is_ok_false. unfold model_validate.
    rewrite validate_fields_is_ok. split.
    + intros (n & t & d & Hl & Hf)%conforms_fields_false_inv;
        [|apply OwnerCreate_wf].
      assert (n ∈ names (OwnerCreate AddressBase)) as Hn
        by (apply elem_of_names_lookup_field; eauto).
      destruct (p !! n) as [v|] eqn:Hp.
      * right. destruct (well_typed t v) eqn:Hwt; [|left; by exists n, t, d, v].
        right. simpl in Hn.
        each_name Hn; simpl in Hl; injection Hl as <- <-; simpl in *;
          try congruence.
        destruct v; try done. exists s. split; [done|].
        simpl in Hf. by destruct (EmailStr s).
      * left. exists n. split; [|done]. simpl in Hn.
        each_name Hn; simpl in Hl; injection Hl as <- <-; simpl in *;
          try done; set_solver.
    + intros [(n & Hn & Hp)|[(n & t & d & v & Hl & Hp & Hwt)|(s & Hp & Hs)]].
      * assert (∃ t, lookup_field (OwnerCreate AddressBase) n
                     = Some (t, Required)) as [t Ht]
          by (each_name Hn; by eexists).
        eapply conforms_fields_false; [done|]. by rewrite Hp.
      * eapply conforms_fields_false; [done|]. rewrite Hp. simpl.
        destruct t; try done. simpl in *. by destruct v.
      * eapply (conforms_fields_false _ _ "email"); [reflexivity|].
        rewrite Hp. simpl. by rewrite Hs.
  - intros Hp. split; apply is_ok_false; unfold model_validate;
      rewrite validate_fields_is_ok;
      eapply (conforms_fields_false _ _ "email"); try reflexivity;
      by rewrite Hp.
Qed.

(** ** Round trip *)

Context `{laws : !CodecLaws}.

(** C6. A Read record, serialized in JSON mode and parsed back by its
    class, is the record it was, field for field; nothing is drawn from the
    identifier or time sources on the way.  The same holds for the dump
    that keeps the Python values. *)
Theorem read_round_trip (Read : fields) (md : mode)
    (p r : gmap string pyval) (w w' w2 : World) :
  Read ∈ [OwnerRead AddressBase; PetRead AddressBase] →
  model_validate Read p w = (w', Ok r) →
  model_validate Read (model_dump md Read r) w2 = (w2, Ok r).
Proof using AddressBase_wf laws.
  intros HRead Hr.
  assert (wf_fields Read = true) as Hwf
    by (each_name HRead; [apply OwnerRead_wf|apply PetRead_wf]).
  apply model_validate_dump; [done|]. by eapply model_validate_record.
Qed.

(** ** Identifier and timestamps of a Read record *)

(** The fields a Read class adds, when the payload carries none of them:
    one identifier is drawn, then the clock is read twice. *)
Lemma owner_stamps w :
  validate_fields
    class {{ "id" ∷ TUuid := DefaultFactory Fuuid4;
             "created_at" ∷ TDatetime := DefaultFactory Futcnow;
             "updated_at" ∷ TDatetime := DefaultFactory Futcnow }} ∅ w =
  ({| uuid_calls := S (uuid_calls w); clock_calls := S (S (clock_calls w)) |},
   Ok (<["id" := PUuid (uuid4_at (uuid_calls w))]>
         (<["created_at" := PDatetime (utcnow_at (clock_calls w))]>
            (<["updated_at" := PDatetime (utcnow_at (S (clock_calls w)))]> ∅)))).
Proof. reflexivity. Qed.

Lemma pet_stamps w :
  validate_fields
    class {{ "id" ∷ TUuid := DefaultFactory Fuuid4;
             "owner" ∷ TOptional (TModel (OwnerRead AddressBase)) := Default PNone;
             "created_at" ∷ TDatetime := DefaultFactory Futcnow;
             "updated_at" ∷ TDatetime := DefaultFactory Futcnow }} ∅ w =
  ({| uuid_calls := S (uuid_calls w); clock_calls := S (S (clock_calls w)) |},
   Ok (<["id" := PUuid (uuid4_at (uuid_calls w))]>
         (<["owner" := PNone]>
            (<["created_at" := PDatetime (utcnow_at (clock_calls w))]>
               (<["updated_at" := PDatetime (utcnow_at (S (clock_calls w)))]> ∅))))).
Proof. reflexivity. Qed.

(** C1, as the code has it.  For a valid Create payload, constructing the
    Read class from the dump of the validated fields yields a Read record; its [id] is an identifier drawn for it, never
    [None]; [created_at] and [updated_at] are two successive readings of
    the clock, [created_at] the earlier; the fields shared with the Create
    class are as validated. *)
Theorem create_read_stamps (Create Read : fields)
    (p c : gmap string pyval) (w w1 : World) :
  (Create, Read) ∈ [(OwnerCreate AddressBase, OwnerRead AddressBase);
                    (PetCreate, PetRead AddressBase)] →
  model_validate Create p w = (w1, Ok c) →
  ∃ w2 r,
    model_validate Read (model_dump python Create c) w1 = (w2, Ok r) ∧
    r !! "id" = Some (PUuid (uuid4_at (uuid_calls w1))) ∧
    r !! "created_at" = Some (PDatetime (utcnow_at (clock_calls w1))) ∧
    r !! "updated_at" = Some (PDatetime (utcnow_at (S (clock_calls w1)))) ∧
    (∀ k, k ∈ names Create → k ∈ names Read → r !! k = c !! k).
Proof using AddressBase_wf laws.
  intros Hin Hc. each_pair Hin.
  - destruct (read_of_create_extends (OwnerBase AddressBase) FNil
                class {{ "id" ∷ TUuid := DefaultFactory Fuuid4;
                         "created_at" ∷ TDatetime := DefaultFactory Futcnow;
                         "updated_at" ∷ TDatetime := DefaultFactory Futcnow }}
                p w w1 c
                OwnerCreate_wf OwnerCreate_wf) as (base & Hbase & Hcreate);
      [|exact Hc|].
    { intros k Hk. simpl in Hk. each_name Hk; by_names. }
    unfold OwnerCreate, OwnerRead. rewrite Hcreate, owner_stamps. simpl.
    eexists _, _. split; [done|].
    assert (∀ k, k ∉ names (OwnerBase AddressBase) → base !! k = None) as Hno.
    { intros k Hk. by rewrite Hbase, decide_False. }
    repeat split.
    + rewrite lookup_union_r by (apply Hno; by_names). done.
    + rewrite lookup_union_r by (apply Hno; by_names). done.
    + rewrite lookup_union_r by (apply Hno; by_names). done.
    + intros k Hk _.
      assert (k ∈ names (OwnerBase AddressBase)) as HkB by exact Hk.
      rewrite lookup_union_l', Hbase, decide_True; [done..|].
      rewrite Hbase, decide_True by done.
      pose proof (model_validate_record _ _ _ _ _ OwnerCreate_wf Hc)
        as (? & [= <-] & Hfs & _).
      apply (elem_of_names_lookup_field (OwnerCreate AddressBase)) in Hk
        as [[t d] Hk].
      destruct (has_fields_lookup _ _ _ _ _ Hfs Hk) as (v & -> & _). eauto.
  - destruct (read_of_create_extends PetBase
                class {{ "owner_id" ∷ TUuid := Required }}
                class {{ "id" ∷ TUuid := DefaultFactory Fuuid4;
                         "owner" ∷ TOptional (TModel (OwnerRead AddressBase))
                           := Default PNone;
                         "created_at" ∷ TDatetime := DefaultFactory Futcnow;
                         "updated_at" ∷ TDatetime := DefaultFactory Futcnow }}
                p w w1 c
                PetBase_wf PetCreate_wf) as (base & Hbase & Hcreate);
      [|exact Hc|].
    { intros k Hk. simpl in Hk. each_name Hk; by_names. }
    unfold PetCreate, PetRead. rewrite Hcreate, pet_stamps. simpl.
    eexists _, _. split; [done|].
    assert (∀ k, k ∉ names PetBase → base !! k = None) as Hno.
    { intros k Hk. by rewrite Hbase, decide_False. }
    repeat split.
    + rewrite lookup_union_r by (apply Hno; by_names). done.
    + rewrite lookup_union_r by (apply Hno; by_names). done.
    + rewrite lookup_union_r by (apply Hno; by_names). done.
    + intros k Hk Hk'.
      assert (k ∈ names PetBase) as HkB.
      { simpl in Hk. each_name Hk; try by_names.
        exfalso. revert Hk'. by_names. }
      rewrite lookup_union_l', Hbase, decide_True; [done..|].
      rewrite Hbase, decide_True by done.
      pose proof (model_validate_record _ _ _ _ _ PetCreate_wf Hc)
        as (? & [= <-] & Hfs & _).
      apply (elem_of_names_lookup_field PetCreate) in Hk as [[t d] Hk].
      destruct (has_fields_lookup _ _ _ _ _ Hfs Hk) as (v & -> & _). eauto.
Qed.

(** C7, as the code has it.  The defaults of [id], [created_at] and
    [updated_at] are factories, called whenever a Read record is built
    from a payload that does not carry these fields: the identifier is the
    one drawn at some call [n] made during this construction, the
    timestamps are the clock readings [k] and [k + 1] made during it, and
    the world the construction leaves has counted these calls, so a later
    construction draws later values. *)
Theorem read_defaults_per_instance (Read : fields)
    (p r : gmap string pyval) (w w' : World) :
  Read ∈ [OwnerRead AddressBase; PetRead AddressBase] →
  p !! "id" = None → p !! "created_at" = None → p !! "updated_at" = None →
  model_validate Read p w = (w', Ok r) →
  ∃ n k,
    uuid_calls w ≤ n < uuid_calls w' ∧
    clock_calls w ≤ k ∧ clock_calls w' = S (S k) ∧
    r !! "id" = Some (PUuid (uuid4_at n)) ∧
    r !! "created_at" = Some (PDatetime (utcnow_at k)) ∧
    r !! "updated_at" = Some (PDatetime (utcnow_at (S k))).
Proof.
  intros HRead Hid Hca Hua. unfold model_validate. each_name HRead.
  - unfold OwnerRead. rewrite validate_fields_extends.
    pose proof (validate_fields_le (OwnerBase AddressBase) p w) as [Hu Hc].
    destruct (validate_fields (OwnerBase AddressBase) p w) as [w1 r1] eqn:Hb.
    do 3 (rewrite validate_fields_cons, ?Hid, ?Hca, ?Hua;
          cbn [validate_field default_value call_factory]).
    cbn [validate_fields at_loc both].
    destruct r1 as [b|es]; [|done].
    pose proof (validate_fields_lookup _ _ _ _ _ "id" Hb) as H1.
    pose proof (validate_fields_lookup _ _ _ _ _ "created_at" Hb) as H2.
    pose proof (validate_fields_lookup _ _ _ _ _ "updated_at" Hb) as H3.
    simpl in H1, H2, H3, Hu, Hc. clear Hb.
    simpl. intros [= <- <-].
    exists (uuid_calls w1), (clock_calls w1). simpl.
    rewrite !lookup_union_r by done.
    repeat split; try done; lia.
  - unfold PetRead. rewrite validate_fields_extends.
    pose proof (validate_fields_le PetBase p w) as [Hu Hc].
    destruct (validate_fields PetBase p w) as [w1 r1] eqn:Hb.
    rewrite validate_fields_cons, Hid.
    cbn [validate_field default_value call_factory].
    set (wa := {| uuid_calls := S (uuid_calls w1);
                  clock_calls := clock_calls w1 |}).
    rewrite validate_fields_cons.
    pose proof (validate_field_le (TOptional (TModel (OwnerRead AddressBase)))
                  (Default PNone) (p !! "owner") wa) as [Hu' Hc'].
    destruct (validate_field _ _ (p !! "owner") wa) as [wb ro].
    do 2 (rewrite validate_fields_cons, ?Hca, ?Hua;
          cbn [validate_field default_value call_factory]).
    cbn [validate_fields at_loc both].
    destruct r1 as [b|es]; [|by destruct ro].
    pose proof (validate_fields_lookup _ _ _ _ _ "id" Hb) as H1.
    pose proof (validate_fields_lookup _ _ _ _ _ "created_at" Hb) as H2.
    pose proof (validate_fields_lookup _ _ _ _ _ "updated_at" Hb) as H3.
    simpl in H1, H2, H3, Hu, Hc, Hu', Hc'. clear Hb.
    destruct ro as [o|es']; simpl; [|done]. intros [= <- <-].
    exists (uuid_calls w1), (clock_calls wb). simpl.
    rewrite !lookup_union_r by done.
    repeat split; try done; lia.
Qed.

(** ** Partial updates *)

(** C2. When an update of an Owner or a Pet yields a Read record, each
    field of the Update class that the payload carries holds, in the new
    record, the value validated from the payload, and each field the
    payload does not carry holds what the stored record held. *)
Theorem update_overwrites_present (Update Read : fields)
    (stored p r' : gmap string pyval) (w w' : World) f :
  (Update, Read) ∈ [(OwnerUpdate AddressBase, OwnerRead AddressBase);
                    (PetUpdate, PetRead AddressBase)] →
  record_of Read stored →
  f ∈ names Update →
  update Update Read stored p w = (w', Ok r') →
  ∃ w1 u, model_validate Update p w = (w1, Ok u) ∧
    (is_Some (p !! f) → r' !! f = u !! f) ∧
    (p !! f = None → r' !! f = stored !! f).
Proof using AddressBase_wf laws.
  intros Hin Hs Hf Hup. each_pair Hin; simpl in Hf.
  - each_name Hf;
      (eapply update_field;
         [apply OwnerUpdate_wf|apply OwnerRead_wf| |exact Hs
         |reflexivity|reflexivity| |done|exact Hup]);
      try exact AddressBase_wf; try reflexivity;
      first [left; reflexivity|right; reflexivity].
  - each_name Hf;
      (eapply update_field;
         [apply PetUpdate_wf|apply PetRead_wf| |exact Hs
         |reflexivity|reflexivity| |done|exact Hup]);
      try reflexivity; first [left; reflexivity|right; reflexivity].
Qed.

(** An update that carries only a list of addresses. *)
Lemma update_owner_addresses (stored : gmap string pyval) l w :
  record_of (OwnerRead AddressBase) stored →
  conforms (TList (TModel AddressBase)) (PList l) = true →
  ∃ w1 v w2 r,
    validate (TList (TModel AddressBase)) (PList l) w = (w1, Ok v) ∧
    update_owner AddressBase stored {["addresses" := PList l]} w = (w2, Ok r) ∧
    r !! "addresses" = Some v ∧
    record_of (OwnerRead AddressBase) r.
Proof using AddressBase_wf laws.
  intros Hs Hl.
  destruct (validate (TList (TModel AddressBase)) (PList l) w) as [w1 rv] eqn:Hv.
  pose proof (validate_is_ok (TList (TModel AddressBase)) (PList l) w) as Hok.
  rewrite Hv, Hl in Hok. simpl in Hok. apply is_ok_true in Hok as [v ->].
  assert (model_validate (OwnerUpdate AddressBase) {["addresses" := PList l]} w
          = (w1, Ok (<["first_name" := PNone]> (<["last_name" := PNone]>
                    (<["email" := PNone]> (<["phone" := PNone]>
                    (<["government_id" := PNone]>
                    (<["addresses" := v]> ∅)))))))) as Hu.
  { unfold model_validate, OwnerUpdate.
    do 5 (rewrite validate_fields_cons, lookup_singleton_ne by done;
          cbn [validate_field default_value]).
    rewrite validate_fields_cons, lookup_singleton_eq.
    cbn [validate_field]. change (validate (TOptional ?t) (PList l) w)
      with (validate t (PList l) w). by rewrite Hv. }
  assert (instance_of (TList (TModel AddressBase)) v) as Hinst
    by (eapply validate_instance; [exact AddressBase_wf|exact Hv]).
  set (u := <["first_name" := PNone]> _) in Hu.
  assert (∀ f, f ∈ model_fields_set (OwnerUpdate AddressBase)
                      {["addresses" := PList l]} →
          ∃ x tr d, u !! f = Some x ∧
                    lookup_field (OwnerRead AddressBase) f = Some (tr, d) ∧
                    instance_of tr x) as Hset.
  { intros f [_ [x Hx]]%elem_of_model_fields_set.
    apply lookup_singleton_Some in Hx as [<- _].
    exists v, (TList (TModel AddressBase)), (DefaultFactory Flist).
    by repeat split. }
  pose proof (update_merged _ _ stored _ w w1 u _
                OwnerUpdate_wf OwnerRead_wf Hs eq_refl Hu Hset) as Hup.
  pose proof Hup as Hrec.
  rewrite (update_unfold _ _ _ _ _ _ _ OwnerUpdate_wf Hs Hu) in Hrec.
  apply model_validate_record in Hrec; [|apply OwnerRead_wf].
  unfold update_owner. rewrite Hup.
  eexists w1, v, _, _. split; [done|]. split; [done|]. split; [|exact Hrec].
  rewrite merged_lookup, exclude_unset_lookup by done.
  rewrite decide_True; [done|]. apply elem_of_model_fields_set.
  split; [by_names|]. rewrite lookup_singleton_eq. eauto.
Qed.

(** C3. Updating an Owner with the address list [la] and then with the
    address list [lb] succeeds both times and leaves, as the addresses of
    the record, the list validated from [lb] alone: nothing of [la] is
    kept.  When the entries of [lb] are address records already, the
    addresses of the record are [lb] itself. *)
Theorem addresses_replaced (stored : gmap string pyval) (la lb : list pyval) w :
  record_of (OwnerRead AddressBase) stored →
  conforms (TList (TModel AddressBase)) (PList la) = true →
  conforms (TList (TModel AddressBase)) (PList lb) = true →
  ∃ w1 r1 w2 r2 w1' vb,
    update_owner AddressBase stored {["addresses" := PList la]} w = (w1, Ok r1) ∧
    update_owner AddressBase r1 {["addresses" := PList lb]} w1 = (w2, Ok r2) ∧
    validate (TList (TModel AddressBase)) (PList lb) w1 = (w1', Ok vb) ∧
    r2 !! "addresses" = Some vb ∧
    (Forall (instance_of (TModel AddressBase)) lb → vb = PList lb).
Proof using AddressBase_wf laws.
  intros Hs Hla Hlb.
  destruct (update_owner_addresses stored la w Hs Hla)
    as (wa & va & w1 & r1 & _ & Hup1 & _ & Hr1).
  destruct (update_owner_addresses r1 lb w1 Hr1 Hlb)
    as (w1' & vb & w2 & r2 & Hvb & Hup2 & Hr2 & _).
  exists w1, r1, w2, r2, w1', vb. repeat split; try done.
  intros Hinst.
  assert (instance_of (TList (TModel AddressBase)) (PList lb)) as Hi
    by (by exists lb).
  pose proof (validate_dump python (TList (TModel AddressBase)) _ w1
                AddressBase_wf Hi) as Hv.
  rewrite (dump_python _ _ Hi) in Hv. congruence.
Qed.

End Repository.

(** * Further properties of validation *)

Section Reporting.
Context `{codec : Codec} `{oracle : Oracle}.

(** ** Where an error is reported *)

Lemma at_loc_err {A} i es : @at_loc A i (Err es) = Err (under i <$> es).
Proof. done. Qed.

(** An error of a field is reported under the name of the field, whatever
    the other fields hold. *)
Lemma validate_fields_reports fs m w n t d e :
  lookup_field fs n = Some (t, d) →
  (∀ w1, ∃ es1, (validate_field t d (m !! n) w1).2 = Err es1 ∧ e ∈ es1) →
  ∃ es, (validate_fields fs m w).2 = Err es ∧ under (LKey n) e ∈ es.
Proof.
  intros Hl He. revert w. induction fs as [|n' t' d' rest IH]; intros w; [done|].
  rewrite validate_fields_cons. simpl in Hl.
  destruct (String.eqb_spec n' n) as [->|Hne].
  - injection Hl as -> ->. destruct (He w) as (es1 & Hes1 & Hin).
    destruct (validate_field t d (m !! n) w) as [w1 r1]. simpl in Hes1. subst r1.
    assert (under (LKey n) e ∈ under (LKey n) <$> es1) as Hin'
      by (by apply list_elem_of_fmap_2).
    destruct (validate_fields rest m w1) as [w2 [vs|es2]]; simpl;
      eexists; (split; [done|]); [done|].
    apply elem_of_app. by left.
  - destruct (validate_field t' d' (m !! n') w) as [w1 r1].
    destruct (IH Hl w1) as (es2 & Hes & Hin).
    destruct (validate_fields rest m w1) as [w2 r2]. simpl in *. subst r2.
    destruct r1 as [v|es1]; simpl; eexists; (split; [done|]); [done|].
    apply elem_of_app. by right.
Qed.

(** An error of an item of a list is reported under the index of the
    item. *)
Lemma validate_items_reports f j l w i v e :
  l !! i = Some v →
  (∀ w1, ∃ es1, (f v w1).2 = Err es1 ∧ e ∈ es1) →
  ∃ es, (validate_items f j l w).2 = Err es ∧ under (LIdx (j + i)) e ∈ es.
Proof.
  intros Hi He. revert j w i Hi.
  induction l as [|x xs IH]; intros j w i Hi; [done|]. simpl.
  destruct i as [|i]; simpl in Hi.
  - injection Hi as ->. destruct (He w) as (es1 & Hes1 & Hin).
    destruct (f v w) as [w1 r1]. simpl in Hes1. subst r1.
    rewrite Nat.add_0_r.
    assert (under (LIdx j) e ∈ under (LIdx j) <$> es1) as Hin'
      by (by apply list_elem_of_fmap_2).
    destruct (validate_items f (S j) xs w1) as [w2 [vs|es2]]; simpl;
      eexists; (split; [done|]); [done|].
    apply elem_of_app. by left.
  - destruct (f x w) as [w1 r1].
    destruct (IH (S j) w1 i Hi) as (es2 & Hes & Hin).
    replace (j + S i) with (S j + i) by lia.
    destruct (validate_items f (S j) xs w1) as [w2 r2]. simpl in *. subst r2.
    destruct r1 as [y|es1]; simpl; eexists; (split; [done|]); [done|].
    apply elem_of_app. by right.
Qed.

(** ** Lists keep their items in order *)

Lemma validate_items_Forall2 f j l w w' l' :
  validate_items f j l w = (w', Ok l') →
  Forall2 (λ x y, ∃ w1 w2, f x w1 = (w2, Ok y)) l l'.
Proof.
  revert j w w' l'. induction l as [|x xs IH]; intros j w w' l'; simpl.
  - intros [= _ <-]. constructor.
  - destruct (f x w) as [w1 r1] eqn:Hx.
    destruct (validate_items f (S j) xs w1) as [w2 r2] eqn:Hxs.
    intros [= _ Hb]. apply both_ok in Hb as (y & ys & Hy & -> & ->).
    apply at_loc_ok in Hy as ->. constructor; eauto.
Qed.

(** ** Keys that name no field, and explicit nulls *)

Lemma validate_fields_insert_unknown fs m w k v :
  k ∉ names fs →
  validate_fields fs (<[k := v]> m) w = validate_fields fs m w.
Proof.
  intros Hk. apply validate_fields_agree. intros k' Hk'.
  rewrite lookup_insert_ne; [done|]. by intros ->.
Qed.

(** For an optional field whose default is [None], carrying [None] and
    not carrying the field validate alike. *)
Lemma validate_fields_insert_None fs m w f t :
  wf_fields fs = true →
  lookup_field fs f = Some (TOptional t, Default PNone) →
  m !! f = None →
  validate_fields fs (<[f := PNone]> m) w = validate_fields fs m w.
Proof.
  intros Hwf Hl Hm. revert w Hwf Hl.
  induction fs as [|n' t' d' rest IH]; intros w Hwf Hl; [done|].
  apply wf_fields_cons in Hwf as (Hn' & _ & _ & Hwf).
  rewrite !validate_fields_cons. simpl in Hl.
  destruct (String.eqb_spec n' f) as [->|Hne].
  - injection Hl as -> ->. rewrite lookup_insert_eq, Hm. simpl.
    by rewrite validate_fields_insert_unknown.
  - rewrite lookup_insert_ne by done.
    destruct (validate_field t' d' (m !! n') w) as [w1 r1]. by rewrite IH.
Qed.

(** ** Validation without effects *)

Lemma validate_items_world f j l w :
  (∀ v w', (f v w').1 = w') → (validate_items f j l w).1 = w.
Proof.
  intros Hf. revert j w. induction l as [|x xs IH]; intros j w; simpl; [done|].
  pose proof (Hf x w) as Hx. destruct (f x w) as [w1 r1]. simpl in Hx. subst w1.
  pose proof (IH (S j) w) as Hxs.
  by destruct (validate_items f (S j) xs w) as [w2 r2].
Qed.

Lemma effect_free_world :
  (∀ t, effect_free t = true → ∀ v w, (validate t v w).1 = w) ∧
  (∀ fs, effect_free_fields fs = true → ∀ m w, (validate_fields fs m w).1 = w).
Proof.
  apply schema_ind; simpl; try done.
  - intros t IH Ht v w. destruct v; simpl; auto.
  - intros t IH Ht v w. destruct v; simpl; try done.
    pose proof (validate_items_world (validate t) 0 l w (IH Ht)) as Hl.
    by destruct (validate_items (validate t) 0 l w).
  - intros fs IH Ht v w. destruct v; simpl; try done.
    pose proof (IH Ht m w) as Hm. by destruct (validate_fields fs m w).
  - intros n t IHt d rest IHrest Hfree m w.
    apply andb_true_iff in Hfree as [[Hd Ht]%andb_true_iff Hrest].
    assert ((match m !! n with
             | Some v => validate t v w
             | None => default_value d w
             end).1 = w) as Hstep.
    { destruct (m !! n); [by apply IHt|]. by destruct d as [| |[]]. }
    destruct (match m !! n with
              | Some v => validate t v w
              | None => default_value d w
              end) as [w1 r1]. simpl in Hstep. subst w1.
    pose proof (IHrest Hrest m w) as Hr.
    by destruct (validate_fields rest m w).
Qed.

(** ** What a JSON dump holds *)


End Reporting.

(** * Further properties of the Owner and Pet models *)

Ltac in_cases H :=
  repeat (apply elem_of_cons in H as [H|H]);
  [..|by apply elem_of_nil in H]; simplify_eq.

Ltac not_a_name := apply (bool_decide_unpack _); vm_compute; exact I.

Section Models_more.
Context `{codec : Codec} `{oracle : Oracle}.
Variable AddressBase : fields.
Hypothesis AddressBase_wf : wf_fields AddressBase = true.

(** ** Defaults and keys *)

(** X1. A field with a default that a Create payload does not carry holds
    the default after validation: [None] for [phone], [government_id],
    [breed], [birth_date] and [color], the empty list for [addresses]. *)
Theorem omitted_fields_default (Create : fields)
    (p c : gmap string pyval) (w w' : World) n v :
  (Create, n, v) ∈ [(OwnerCreate AddressBase, "phone", PNone);
                    (OwnerCreate AddressBase, "government_id", PNone);
                    (OwnerCreate AddressBase, "addresses", PList []);
                    (PetCreate, "breed", PNone);
                    (PetCreate, "birth_date", PNone);
                    (PetCreate, "color", PNone)] →
  p !! n = None →
  model_validate Create p w = (w', Ok c) →
  c !! n = Some v.
Proof.
  intros Hin Hp Hc.
  pose proof (validate_fields_lookup _ _ _ _ _ n Hc) as Hn. rewrite Hp in Hn.
  in_cases Hin; simpl in Hn; destruct Hn as (wa & wb & x & Hx & ->);
    by injection Hx as _ <-.
Qed.

(** X2. A key that names no field of the class does not matter: the
    payload with the key validates exactly as the payload without it.  So
    a Create payload cannot set [id], [created_at] or [updated_at], and a
    Pet Update payload cannot set [owner_id]. *)
Theorem unknown_keys_ignored (fs : fields) (p : gmap string pyval) (w : World) k v :
  fs ∈ [OwnerBase AddressBase; OwnerCreate AddressBase;
        OwnerUpdate AddressBase; OwnerRead AddressBase;
        PetBase; PetCreate; PetUpdate; PetRead AddressBase] →
  k ∉ names fs →
  model_validate fs (<[k := v]> p) w = model_validate fs p w.
Proof. intros _ Hk. by apply validate_fields_insert_unknown. Qed.

(** X3. A validated payload or record has exactly the fields its class
    declares: every declared field is there, and nothing else is. *)
Theorem validated_keys (fs : fields) (p c : gmap string pyval) (w w' : World) k :
  fs ∈ [OwnerBase AddressBase; OwnerCreate AddressBase;
        OwnerUpdate AddressBase; OwnerRead AddressBase;
        PetBase; PetCreate; PetUpdate; PetRead AddressBase] →
  model_validate fs p w = (w', Ok c) →
  is_Some (c !! k) ↔ k ∈ names fs.
Proof.
  intros _ Hc. pose proof (validate_fields_lookup _ _ _ _ _ k Hc) as Hk.
  rewrite elem_of_names_lookup_field.
  destruct (lookup_field fs k) as [[t d]|].
  - destruct Hk as (wa & wb & x & _ & ->). split; eauto.
  - rewrite Hk. split; by intros [? ?].
Qed.

(** X4. Identifier and timestamps that the payload of a Read class
    carries are kept: the factories supply only what is absent. *)
Theorem supplied_stamps_kept (Read : fields)
    (p r : gmap string pyval) (w w' : World) u a b :
  Read ∈ [OwnerRead AddressBase; PetRead AddressBase] →
  p !! "id" = Some (PUuid u) →
  p !! "created_at" = Some (PDatetime a) →
  p !! "updated_at" = Some (PDatetime b) →
  model_validate Read p w = (w', Ok r) →
  r !! "id" = Some (PUuid u) ∧
  r !! "created_at" = Some (PDatetime a) ∧
  r !! "updated_at" = Some (PDatetime b).
Proof.
  intros HRead Hid Hca Hua Hr.
  pose proof (validate_fields_lookup _ _ _ _ _ "id" Hr) as H1.
  pose proof (validate_fields_lookup _ _ _ _ _ "created_at" Hr) as H2.
  pose proof (validate_fields_lookup _ _ _ _ _ "updated_at" Hr) as H3.
  rewrite Hid in H1. rewrite Hca in H2. rewrite Hua in H3.
  in_cases HRead; simpl in H1, H2, H3;
    destruct H1 as (? & ? & ? & [= _ <-] & ->);
    destruct H2 as (? & ? & ? & [= _ <-] & ->);
    destruct H3 as (? & ? & ? & [= _ <-] & ->); done.
Qed.

(** X5. For a field of an Update class, carrying [None] and not carrying
    the field give the same validated payload; they differ only in
    [model_fields_set], which has the field in the first case and not in
    the second. *)
Theorem null_like_omitted (Update : fields) (p : gmap string pyval) (w : World) f :
  Update ∈ [OwnerUpdate AddressBase; PetUpdate] →
  f ∈ names Update →
  p !! f = None →
  model_validate Update (<[f := PNone]> p) w = model_validate Update p w ∧
  f ∈ model_fields_set Update (<[f := PNone]> p) ∧
  f ∉ model_fields_set Update p.
Proof using AddressBase_wf.
  intros HU Hf Hp.
  assert (∃ t, lookup_field Update f = Some (TOptional t, Default PNone) ∧
               wf_fields Update = true) as (t & Ht & Hwf).
  { in_cases HU; simpl in Hf; in_cases Hf; eexists; (split; [reflexivity|]);
      first [reflexivity | cbn; rewrite ?AddressBase_wf; reflexivity]. }
  split; [by eapply validate_fields_insert_None|]. split.
  - apply elem_of_model_fields_set. split; [done|].
    rewrite lookup_insert_eq. eauto.
  - intros [_ [? ?]]%elem_of_model_fields_set. congruence.
Qed.

(** ** Errors and where they are reported *)

(** X6. When a Create payload fails, the error list names every required
    field that the payload does not carry, not only the first one. *)
Theorem every_missing_field_reported (Create : fields) (required : list string)
    (p : gmap string pyval) (w : World) es n :
  (Create, required) ∈
    [(OwnerCreate AddressBase, ["first_name"; "last_name"; "email"]);
     (PetCreate, ["name"; "species"; "owner_id"])] →
  (model_validate Create p w).2 = Err es →
  n ∈ required → p !! n = None →
  {| loc := [LKey n]; kind := missing |} ∈ es.
Proof.
  intros Hin Hes Hn Hp.
  assert (∃ t, lookup_field Create n = Some (t, Required)) as [t Ht].
  { in_cases Hin; in_cases Hn; by eexists. }
  destruct (validate_fields_missing Create p w n t Ht Hp) as (es' & Hes' & Hin').
  unfold model_validate in Hes. congruence.
Qed.

(** X7. A [birth_date] that is carried, is not [None] and that the date
    conversion refuses makes a Pet payload fail, and each error of the
    conversion is reported under [birth_date]: a parsing error for a string
    that is no date, a type error for a list or a boolean. *)
Theorem bad_birth_date_reported (fs : fields) (p : gmap string pyval) (w : World)
    v es1 e :
  fs ∈ [PetBase; PetCreate; PetUpdate; PetRead AddressBase] →
  p !! "birth_date" = Some v → v ≠ PNone →
  date_validate v = Err es1 → e ∈ es1 →
  ∃ es, (model_validate fs p w).2 = Err es ∧
        under (LKey "birth_date") e ∈ es.
Proof.
  intros Hfs Hp Hv Hd He.
  apply (validate_fields_reports fs p w "birth_date"
           (TOptional TDate) (Default PNone)).
  - in_cases Hfs; reflexivity.
  - intros w1. exists es1. split; [|done]. rewrite Hp. simpl.
    by destruct v.
Qed.

(** X8. An [owner_id] that is carried and that the identifier conversion
    refuses makes a Pet Create payload fail, with each error of the
    conversion reported under [owner_id]; [None] is refused like any other
    value that is no identifier. *)
Theorem bad_owner_id_reported (p : gmap string pyval) (w : World) v es1 e :
  p !! "owner_id" = Some v →
  uuid_validate v = Err es1 → e ∈ es1 →
  ∃ es, (model_validate PetCreate p w).2 = Err es ∧
        under (LKey "owner_id") e ∈ es.
Proof.
  intros Hp Hd He.
  apply (validate_fields_reports PetCreate p w "owner_id" TUuid Required);
    [reflexivity|].
  intros w1. exists es1. split; [|done]. by rewrite Hp.
Qed.

Lemma addresses_field (fs : fields) :
  fs ∈ [OwnerBase AddressBase; OwnerCreate AddressBase;
        OwnerUpdate AddressBase; OwnerRead AddressBase] →
  ∃ t d, lookup_field fs "addresses" = Some (t, d) ∧
         ∀ l, validate t (PList l) = validate (TList (TModel AddressBase)) (PList l).
Proof. intros Hfs. in_cases Hfs; by eexists _, _. Qed.

(** X9. An item of [addresses] that is not an object makes an Owner
    payload fail, and the error is reported under [addresses] and the
    index of the item. *)
Theorem bad_address_item_located (fs : fields) (p : gmap string pyval) (w : World)
    l i v :
  fs ∈ [OwnerBase AddressBase; OwnerCreate AddressBase;
        OwnerUpdate AddressBase; OwnerRead AddressBase] →
  p !! "addresses" = Some (PList l) →
  l !! i = Some v → (∀ m, v ≠ PDict m) →
  ∃ es, (model_validate fs p w).2 = Err es ∧
        {| loc := [LKey "addresses"; LIdx i]; kind := model_type |} ∈ es.
Proof.
  intros Hfs Hp Hi Hv.
  destruct (addresses_field fs Hfs) as (t & d & Ht & Hval).
  apply (validate_fields_reports fs p w "addresses" t d
           (under (LIdx i) {| loc := []; kind := model_type |}) Ht).
  intros w1. rewrite Hp. simpl. rewrite Hval. simpl.
  destruct (validate_items_reports (validate (TModel AddressBase)) 0 l w1 i v
              {| loc := []; kind := model_type |} Hi) as (es & Hes & Hin).
  { intros w2. eexists. split; [|apply elem_of_cons; by left].
    destruct v; try done. by destruct (Hv m). }
  destruct (validate_items _ 0 l w1) as [w2 r]. simpl in *. subst r.
  by exists es.
Qed.

(** X10. An address that lacks a field its class requires makes an Owner
    payload fail, and the missing field is reported under [addresses], the
    index of the address and the name of the field. *)
Theorem missing_address_field_located (fs : fields)
    (p : gmap string pyval) (w : World) l i (m : gmap string pyval) k t :
  fs ∈ [OwnerBase AddressBase; OwnerCreate AddressBase;
        OwnerUpdate AddressBase; OwnerRead AddressBase] →
  p !! "addresses" = Some (PList l) →
  l !! i = Some (PDict m) →
  lookup_field AddressBase k = Some (t, Required) → m !! k = None →
  ∃ es, (model_validate fs p w).2 = Err es ∧
        {| loc := [LKey "addresses"; LIdx i; LKey k]; kind := missing |} ∈ es.
Proof.
  intros Hfs Hp Hi Hk Hm.
  destruct (addresses_field fs Hfs) as (t' & d & Ht & Hval).
  apply (validate_fields_reports fs p w "addresses" t' d
           (under (LIdx i) {| loc := [LKey k]; kind := missing |}) Ht).
  intros w1. rewrite Hp. simpl. rewrite Hval. simpl.
  destruct (validate_items_reports (validate (TModel AddressBase)) 0 l w1 i
              (PDict m) {| loc := [LKey k]; kind := missing |} Hi)
    as (es & Hes & Hin).
  { intros w2. simpl.
    destruct (validate_fields_missing AddressBase m w2 k t Hk Hm)
      as (es2 & Hes2 & Hin2).
    destruct (validate_fields AddressBase m w2) as [w3 r]. simpl in *. subst r.
    by exists es2. }
  destruct (validate_items _ 0 l w1) as [w2 r]. simpl in *. subst r.
  by exists es.
Qed.

(** X11. Whether a payload is accepted does not depend on the identifiers
    drawn or on the clock: in any two worlds the outcome is a value in
    both or an error in both. *)
Theorem acceptance_ignores_world (fs : fields) (p : gmap string pyval)
    (w w' : World) :
  fs ∈ [OwnerBase AddressBase; OwnerCreate AddressBase;
        OwnerUpdate AddressBase; OwnerRead AddressBase;
        PetBase; PetCreate; PetUpdate; PetRead AddressBase] →
  is_ok (model_validate fs p w).2 = is_ok (model_validate fs p w').2.
Proof. intros _. unfold model_validate. by rewrite !validate_fields_is_ok. Qed.

(** X12. Validating a Pet payload (Base, Create or Update) draws no
    identifier and reads no clock, whether it succeeds or fails. *)
Theorem pet_validation_pure (fs : fields) (p : gmap string pyval) (w : World) :
  fs ∈ [PetBase; PetCreate; PetUpdate] →
  (model_validate fs p w).1 = w.
Proof.
  intros Hfs. apply effect_free_world. in_cases Hfs; reflexivity.
Qed.

(** ** What validated payloads hold *)

(** X13. The validated [addresses] are the payload's addresses, one for
    one and in the same order, each the outcome of validating the item at
    the same place. *)
Theorem addresses_keep_order (fs : fields) (p c : gmap string pyval)
    (w w' : World) l :
  fs ∈ [OwnerBase AddressBase; OwnerCreate AddressBase;
        OwnerUpdate AddressBase; OwnerRead AddressBase] →
  p !! "addresses" = Some (PList l) →
  model_validate fs p w = (w', Ok c) →
  ∃ l', c !! "addresses" = Some (PList l') ∧
        length l' = length l ∧
        Forall2 (λ x y, ∃ w1 w2,
                   validate (TModel AddressBase) x w1 = (w2, Ok y)) l l'.
Proof.
  intros Hfs Hp Hc.
  destruct (addresses_field fs Hfs) as (t & d & Ht & Hval).
  pose proof (validate_fields_lookup _ _ _ _ _ "addresses" Hc) as Ha.
  rewrite Ht, Hp in Ha. destruct Ha as (wa & wb & x & Hx & ->).
  simpl in Hx. rewrite Hval in Hx. simpl in Hx.
  destruct (validate_items _ 0 l wa) as [w2 r] eqn:Hl.
  injection Hx as _ (l' & -> & ->)%result_map_ok.
  exists l'. split; [done|].
  apply validate_items_Forall2 in Hl. split; [|done].
  symmetry. by eapply Forall2_length.
Qed.

(** X14. The validated [email] is the address as [EmailStr] normalizes
    it, not the string as sent. *)
Theorem email_stored_normalized (fs : fields) (p c : gmap string pyval)
    (w w' : World) s :
  fs ∈ [OwnerBase AddressBase; OwnerCreate AddressBase;
        OwnerUpdate AddressBase; OwnerRead AddressBase] →
  p !! "email" = Some (PStr s) →
  model_validate fs p w = (w', Ok c) →
  ∃ s', EmailStr s = Some s' ∧ c !! "email" = Some (PStr s').
Proof.
  intros Hfs Hp Hc.
  pose proof (validate_fields_lookup _ _ _ _ _ "email" Hc) as He.
  rewrite Hp in He.
  in_cases Hfs; simpl in He; destruct He as (wa & wb & x & Hx & ->);
    destruct (EmailStr s) as [s'|]; simplify_eq/=; eauto.
Qed.

Context `{laws : !CodecLaws}.

(** X15. The [owner] of a Pet Read record is [None] when the payload
    carries none or [None], and otherwise a record of the Owner Read
    class. *)
Theorem pet_owner_embedded (p r : gmap string pyval) (w w' : World) :
  model_validate (PetRead AddressBase) p w = (w', Ok r) →
  (p !! "owner" = None ∨ p !! "owner" = Some PNone →
   r !! "owner" = Some PNone) ∧
  (∀ v, p !! "owner" = Some v → v ≠ PNone →
        ∃ o, r !! "owner" = Some (PDict o) ∧
             record_of (OwnerRead AddressBase) o).
Proof using AddressBase_wf laws.
  intros Hr.
  pose proof (validate_fields_lookup _ _ _ _ _ "owner" Hr) as Ho.
  simpl in Ho. destruct Ho as (wa & wb & x & Hx & Hro). split.
  - intros [Hp|Hp]; rewrite Hp in Hx; simpl in Hx; by simplify_eq.
  - intros v Hp Hv. rewrite Hp in Hx.
    change (validate_field ?t ?d (Some v) wa) with (validate t v wa) in Hx.
    assert (validate (TModel (OwnerRead AddressBase)) v wa = (wb, Ok x)) as Hx'
      by (by destruct v).
    apply validate_instance in Hx' as (o & -> & Ho);
      [|cbn; rewrite ?AddressBase_wf; reflexivity].
    exists o. split; [done|]. by exists o.
Qed.


(** X17. A validated Base, Create or Update payload is a fixed point of
    its class: dumped in either mode and validated again it comes back
    unchanged, and nothing is drawn. *)
Theorem validated_payload_fixed (fs : fields) (md : mode)
    (p c : gmap string pyval) (w w' w2 : World) :
  fs ∈ [OwnerBase AddressBase; OwnerCreate AddressBase;
        OwnerUpdate AddressBase; PetBase; PetCreate; PetUpdate] →
  model_validate fs p w = (w', Ok c) →
  model_validate fs (model_dump md fs c) w2 = (w2, Ok c).
Proof using AddressBase_wf laws.
  intros Hfs Hc.
  assert (wf_fields fs = true) as Hwf
    by (in_cases Hfs; cbn; rewrite ?AddressBase_wf; reflexivity).
  apply model_validate_dump; [done|]. by eapply model_validate_record.
Qed.

End Models_more.

(** * The models at work *)

(** The decimal conversions satisfy the laws. *)
Lemma N_of_string_of_N n : N_of_string (string_of_N n) = Some n.
Proof.
  unfold N_of_string, string_of_N. rewrite NilZero.usu.
  - simpl. by rewrite DecimalN.Unsigned.of_to.
  - destruct n; [done|]. apply DecimalPos.Unsigned.to_uint_nonnil.
Qed.

Lemma Z_of_string_of_Z z : Z_of_string (string_of_Z z) = Some z.
Proof.
  unfold Z_of_string, string_of_Z. rewrite NilZero.isi.
  - simpl. by rewrite DecimalZ.of_to.
  - destruct z; simpl; try done; intros [= Hp];
      by apply DecimalPos.Unsigned.to_uint_nonnil in Hp.
  - destruct z; simpl; try done; intros [= Hp];
      by apply DecimalPos.Unsigned.to_uint_nonnil in Hp.
Qed.

#[export] Instance decimal_laws : CodecLaws.
Proof.
  split.
  - apply N_of_string_of_N.
  - apply Z_of_string_of_Z.
  - apply Z_of_string_of_Z.
  - intros s s'. unfold EmailStr. simpl.
    destruct (has_at_sign s) eqn:Hs; [|done]. intros [= <-]. by rewrite Hs.
Qed.

Lemma ada_read_record : record_of (OwnerRead AddressBase_spec) ada_read.
Proof.
  apply (model_validate_record _ ada_read world0 world0); [reflexivity|].
  vm_compute. reflexivity.
Qed.

(** ** The theorems on the example scenario *)

(** [create_read_stamps] on the creation of Ada's record. *)
Lemma create_read_stamps_witness :
  model_validate (OwnerCreate AddressBase_spec) ada world0
    = (world0, Ok ada_validated) ∧
  ∃ w2 r,
    model_validate (OwnerRead AddressBase_spec)
      (model_dump python (OwnerCreate AddressBase_spec) ada_validated) world0
      = (w2, Ok r) ∧
    r !! "id" = Some (PUuid (uuid4_at (uuid_calls world0))) ∧
    r !! "created_at" = Some (PDatetime (utcnow_at (clock_calls world0))) ∧
    r !! "updated_at" = Some (PDatetime (utcnow_at (S (clock_calls world0)))) ∧
    (∀ k, k ∈ names (OwnerCreate AddressBase_spec) →
          k ∈ names (OwnerRead AddressBase_spec) →
          r !! k = ada_validated !! k).
Proof.
  split; [vm_compute; reflexivity|].
  apply (create_read_stamps AddressBase_spec eq_refl
           (OwnerCreate AddressBase_spec) (OwnerRead AddressBase_spec)
           ada ada_validated world0 world0).
  - apply elem_of_cons. left. reflexivity.
  - vm_compute. reflexivity.
Defined.

(** [update_overwrites_present] on the update of Ada's phone number. *)
Lemma update_overwrites_present_witness :
  update (OwnerUpdate AddressBase_spec) (OwnerRead AddressBase_spec)
    ada_read ada_phone world1
    = ({| uuid_calls := 1; clock_calls := 3 |}, Ok ada_read_phone) ∧
  ∃ w1 u,
    model_validate (OwnerUpdate AddressBase_spec) ada_phone world1 = (w1, Ok u) ∧
    (is_Some (ada_phone !! "phone") →
     ada_read_phone !! "phone" = u !! "phone") ∧
    (ada_phone !! "phone" = None →
     ada_read_phone !! "phone" = ada_read !! "phone").
Proof.
  split; [vm_compute; reflexivity|].
  apply (update_overwrites_present AddressBase_spec eq_refl
           (OwnerUpdate AddressBase_spec) (OwnerRead AddressBase_spec)
           ada_read ada_phone ada_read_phone world1
           {| uuid_calls := 1; clock_calls := 3 |} "phone").
  - apply elem_of_cons. left. reflexivity.
  - apply ada_read_record.
  - apply (bool_decide_unpack _). vm_compute. exact I.
  - vm_compute. reflexivity.
Defined.

(** [addresses_replaced] on Ada's record and two one-address lists. *)
Lemma addresses_replaced_witness :
  conforms (TList (TModel AddressBase_spec)) (PList [main_street]) = true ∧
  conforms (TList (TModel AddressBase_spec)) (PList [downing_street]) = true ∧
  ∃ w1 r1 w2 r2 w1' vb,
    update_owner AddressBase_spec ada_read
      {["addresses" := PList [main_street]]} world1 = (w1, Ok r1) ∧
    update_owner AddressBase_spec r1
      {["addresses" := PList [downing_street]]} w1 = (w2, Ok r2) ∧
    validate (TList (TModel AddressBase_spec)) (PList [downing_street]) w1
      = (w1', Ok vb) ∧
    r2 !! "addresses" = Some vb ∧
    (Forall (instance_of (TModel AddressBase_spec)) [downing_street] →
     vb = PList [downing_street]).
Proof.
  split; [vm_compute; reflexivity|]. split; [vm_compute; reflexivity|].
  apply (addresses_replaced AddressBase_spec eq_refl ada_read
           [main_street] [downing_street] world1).
  - apply ada_read_record.
  - vm_compute. reflexivity.
  - vm_compute. reflexivity.
Defined.

(** [owner_create_fails_iff] on Ada's payload with a malformed address. *)
Lemma owner_create_fails_iff_witness :
  wf_fields AddressBase_spec = true ∧
  (∃ es, (model_validate (OwnerCreate AddressBase_spec)
            (<["email" := PStr "not-an-email"]> ada) world0).2 = Err es) ∧
  (∃ es, (model_validate (OwnerUpdate AddressBase_spec)
            (<["email" := PStr "not-an-email"]> ada) world0).2 = Err es).
Proof.
  split; [reflexivity|].
  apply (owner_create_fails_iff AddressBase_spec eq_refl
           (<["email" := PStr "not-an-email"]> ada) world0).
  vm_compute. reflexivity.
Defined.

(** [pet_create_missing_required] on a pet sent without its owner. *)
Lemma pet_create_missing_required_witness :
  buddy_no_owner !! "owner_id" = None ∧
  ∃ es,
    (model_validate PetCreate buddy_no_owner world0).2 = Err es ∧
    {| loc := [LKey "owner_id"]; kind := missing |} ∈ es ∧
    (∀ c, (model_validate PetCreate buddy_no_owner world0).2 ≠ Ok c) ∧
    ∀ (build : gmap string pyval → VM (gmap string pyval)),
      (and_then (model_validate PetCreate buddy_no_owner) build world0).2
        = Err es.
Proof.
  split; [vm_compute; reflexivity|].
  apply (pet_create_missing_required buddy_no_owner world0 "owner_id").
  - apply (bool_decide_unpack _). vm_compute. exact I.
  - vm_compute. reflexivity.
Defined.

(** [read_round_trip] on a pet record that embeds its owner's record. *)
Lemma read_round_trip_witness :
  model_validate (PetRead AddressBase_spec) buddy_with_owner world1
    = (world2, Ok buddy_read) ∧
  model_validate (PetRead AddressBase_spec)
    (model_dump json (PetRead AddressBase_spec) buddy_read) world0
    = (world0, Ok buddy_read).
Proof.
  split; [vm_compute; reflexivity|].
  apply (read_round_trip AddressBase_spec eq_refl (PetRead AddressBase_spec)
           json buddy_with_owner buddy_read world1 world2 world0).
  - apply elem_of_cons. right. apply elem_of_cons. left. reflexivity.
  - vm_compute. reflexivity.
Defined.

(** [read_defaults_per_instance] on Ada's record. *)
Lemma read_defaults_per_instance_witness :
  model_validate (OwnerRead AddressBase_spec) ada world0 = (world1, Ok ada_read) ∧
  ∃ n k,
    uuid_calls world0 ≤ n < uuid_calls world1 ∧
    clock_calls world0 ≤ k ∧ clock_calls world1 = S (S k) ∧
    ada_read !! "id" = Some (PUuid (uuid4_at n)) ∧
    ada_read !! "created_at" = Some (PDatetime (utcnow_at k)) ∧
    ada_read !! "updated_at" = Some (PDatetime (utcnow_at (S k))).
Proof.
  split; [vm_compute; reflexivity|].
  apply (read_defaults_per_instance AddressBase_spec
           (OwnerRead AddressBase_spec) ada ada_read world0 world1).
  - apply elem_of_cons. left. reflexivity.
  - vm_compute. reflexivity.
  - vm_compute. reflexivity.
  - vm_compute. reflexivity.
  - vm_compute. reflexivity.
Defined.

(** [rejected_in_full] on a pet whose species is a number: name and owner
    are valid, and nothing is accepted. *)
Lemma rejected_in_full_witness :
  field_conforms TStr Required (buddy_bad_species !! "species") = false ∧
  field_conforms TStr Required (buddy_bad_species !! "name") = true ∧
  ∃ es, (model_validate PetCreate buddy_bad_species world0).2 = Err es ∧
        es ≠ [] ∧
        ∀ r, (model_validate PetCreate buddy_bad_species world0).2 ≠ Ok r.
Proof.
  split; [vm_compute; reflexivity|]. split; [vm_compute; reflexivity|].
  apply (rejected_in_full AddressBase_spec PetCreate buddy_bad_species world0
           "species" TStr Required).
  - do 5 (apply elem_of_cons; right). apply elem_of_cons. left. reflexivity.
  - reflexivity.
  - vm_compute. reflexivity.
Defined.

(** [empty_text_accepted] on Ada's payload with an empty first name. *)
Lemma empty_text_accepted_witness :
  is_ok (model_validate (OwnerCreate AddressBase_spec) ada world0).2 = true ∧
  ∃ w' c,
    model_validate (OwnerCreate AddressBase_spec)
      (<["first_name" := PStr ""]> ada) world0 = (w', Ok c) ∧
    c !! "first_name" = Some (PStr "").
Proof.
  split; [vm_compute; reflexivity|].
  apply (empty_text_accepted AddressBase_spec eq_refl
           (OwnerCreate AddressBase_spec) ada world0 "first_name").
  - apply elem_of_cons. left. reflexivity.
  - vm_compute. reflexivity.
Defined.

(** ** Where the code departs from the specification *)

(** C1 as the specification states it fails: Ada's payload is valid, and
    in the Read record constructed from its validated fields [created_at]
    and [updated_at] are two different readings of the clock. *)
Lemma created_at_differs_from_updated_at :
  model_validate (OwnerCreate AddressBase_spec) ada world0
    = (world0, Ok ada_validated) ∧
  ∃ w r,
    model_validate (OwnerRead AddressBase_spec)
      (model_dump python (OwnerCreate AddressBase_spec) ada_validated) world0
      = (w, Ok r) ∧
    r !! "created_at" = Some (PDatetime 0%Z) ∧
    r !! "updated_at" = Some (PDatetime 1%Z) ∧
    r !! "created_at" ≠ r !! "updated_at".
Proof.
  split; [vm_compute; reflexivity|].
  exists world1, ada_read. do 3 (split; [vm_compute; reflexivity|]).
  vm_compute. intros Heq. discriminate Heq.
Qed.

(** C7 as the specification states it fails: two Read records built one
    after the other from the same payload, neither supplying [id],
    [created_at] or [updated_at], differ in all three fields. *)
Lemma defaults_not_shared :
  ada !! "id" = None ∧ ada !! "created_at" = None ∧
  ada !! "updated_at" = None ∧
  ∃ r1 w2 r2,
    model_validate (OwnerRead AddressBase_spec) ada world0 = (world1, Ok r1) ∧
    model_validate (OwnerRead AddressBase_spec) ada world1 = (w2, Ok r2) ∧
    r1 !! "id" ≠ r2 !! "id" ∧
    r1 !! "created_at" ≠ r2 !! "created_at" ∧
    r1 !! "updated_at" ≠ r2 !! "updated_at".
Proof.
  do 3 (split; [vm_compute; reflexivity|]).
  exists ada_read, world2,
    (<["id" := PUuid 1%N]> (<["created_at" := PDatetime 2%Z]>
     (<["updated_at" := PDatetime 3%Z]> ada_validated))).
  split; [vm_compute; reflexivity|]. split; [vm_compute; reflexivity|].
  repeat split; vm_compute; intros Heq; discriminate Heq.
Qed.

(** ** The further properties on the example scenario *)

Ltac in_list :=
  repeat first [ by (apply elem_of_cons; left)
               | apply elem_of_cons; right ].

Lemma omitted_fields_default_witness :
  delete "addresses" ada !! "addresses" = None ∧
  model_validate (OwnerCreate AddressBase_spec) (delete "addresses" ada) world0
    = (world0, Ok ada_validated) ∧
  ada_validated !! "addresses" = Some (PList []).
Proof.
  split; [vm_compute; reflexivity|]. split; [vm_compute; reflexivity|].
  apply (omitted_fields_default AddressBase_spec (OwnerCreate AddressBase_spec)
           (delete "addresses" ada) ada_validated world0 world0
           "addresses" (PList [])).
  - in_list.
  - vm_compute. reflexivity.
  - vm_compute. reflexivity.
Defined.

Lemma unknown_keys_ignored_witness :
("owner_id" ∉ names PetUpdate) ∧
  model_validate PetUpdate
    (<["owner_id" := PUuid 7%N]> {["name" := PStr "Max"]}) world0
  = model_validate PetUpdate {["name" := PStr "Max"]} world0.
Proof.
  split; [not_a_name|].
  apply (unknown_keys_ignored AddressBase_spec PetUpdate
           {["name" := PStr "Max"]} world0 "owner_id" (PUuid 7%N)).
  - in_list.
  - not_a_name.
Defined.

Lemma validated_keys_witness :
  model_validate (OwnerCreate AddressBase_spec) ada world0
    = (world0, Ok ada_validated) ∧
  (is_Some (ada_validated !! "id") ↔ "id" ∈ names (OwnerCreate AddressBase_spec)).
Proof.
  split; [vm_compute; reflexivity|].
  apply (validated_keys AddressBase_spec (OwnerCreate AddressBase_spec)
           ada ada_validated world0 world0 "id").
  - in_list.
  - vm_compute. reflexivity.
Defined.

Lemma supplied_stamps_kept_witness :
  model_validate (OwnerRead AddressBase_spec) ada_read world0
    = (world0, Ok ada_read) ∧
  ada_read !! "id" = Some (PUuid 0%N) ∧
  ada_read !! "created_at" = Some (PDatetime 0%Z) ∧
  ada_read !! "updated_at" = Some (PDatetime 1%Z).
Proof.
  split; [vm_compute; reflexivity|].
  apply (supplied_stamps_kept AddressBase_spec (OwnerRead AddressBase_spec)
           ada_read ada_read world0 world0 0%N 0%Z 1%Z).
  - in_list.
  - vm_compute. reflexivity.
  - vm_compute. reflexivity.
  - vm_compute. reflexivity.
  - vm_compute. reflexivity.
Defined.

Lemma null_like_omitted_witness :
  (∅ : gmap string pyval) !! "phone" = None ∧
  model_validate (OwnerUpdate AddressBase_spec) (<["phone" := PNone]> ∅) world0
    = model_validate (OwnerUpdate AddressBase_spec) ∅ world0 ∧
  "phone" ∈ model_fields_set (OwnerUpdate AddressBase_spec)
              (<["phone" := PNone]> ∅) ∧
  "phone" ∉ model_fields_set (OwnerUpdate AddressBase_spec) ∅.
Proof.
  split; [vm_compute; reflexivity|].
  apply (null_like_omitted AddressBase_spec eq_refl
           (OwnerUpdate AddressBase_spec) ∅ world0 "phone").
  - in_list.
  - not_a_name.
  - vm_compute. reflexivity.
Defined.

Lemma every_missing_field_reported_witness :
  (model_validate PetCreate {["name" := PStr "Buddy"]} world0).2
    = Err [{| loc := [LKey "species"]; kind := missing |};
           {| loc := [LKey "owner_id"]; kind := missing |}] ∧
  {| loc := [LKey "owner_id"]; kind := missing |}
    ∈ [{| loc := [LKey "species"]; kind := missing |};
       {| loc := [LKey "owner_id"]; kind := missing |}].
Proof.
  split; [vm_compute; reflexivity|].
  apply (every_missing_field_reported AddressBase_spec PetCreate
           ["name"; "species"; "owner_id"] {["name" := PStr "Buddy"]} world0
           _ "owner_id").
  - in_list.
  - vm_compute. reflexivity.
  - not_a_name.
  - vm_compute. reflexivity.
Defined.

Lemma bad_birth_date_reported_witness :
  date_validate (PStr "soon") = Err [{| loc := []; kind := date_parsing |}] ∧
  ∃ es, (model_validate PetUpdate {["birth_date" := PStr "soon"]} world0).2
          = Err es ∧
        {| loc := [LKey "birth_date"]; kind := date_parsing |} ∈ es.
Proof.
  split; [vm_compute; reflexivity|].
  apply (bad_birth_date_reported AddressBase_spec PetUpdate
           {["birth_date" := PStr "soon"]} world0 (PStr "soon")
           [{| loc := []; kind := date_parsing |}]
           {| loc := []; kind := date_parsing |}).
  - in_list.
  - vm_compute. reflexivity.
  - discriminate.
  - vm_compute. reflexivity.
  - apply elem_of_cons. left. reflexivity.
Defined.

Lemma bad_owner_id_reported_witness :
  uuid_validate (PStr "abc") = Err [{| loc := []; kind := uuid_parsing |}] ∧
  ∃ es, (model_validate PetCreate (<["owner_id" := PStr "abc"]> buddy) world0).2
          = Err es ∧
        {| loc := [LKey "owner_id"]; kind := uuid_parsing |} ∈ es.
Proof.
  split; [vm_compute; reflexivity|].
  apply (bad_owner_id_reported (<["owner_id" := PStr "abc"]> buddy) world0
           (PStr "abc") [{| loc := []; kind := uuid_parsing |}]
           {| loc := []; kind := uuid_parsing |}).
  - vm_compute. reflexivity.
  - vm_compute. reflexivity.
  - apply elem_of_cons. left. reflexivity.
Defined.

Lemma bad_address_item_located_witness :
  [main_street; PStr "nowhere"] !! 1 = Some (PStr "nowhere") ∧
  ∃ es,
    (model_validate (OwnerCreate AddressBase_spec)
       (<["addresses" := PList [main_street; PStr "nowhere"]]> ada) world0).2
      = Err es ∧
    {| loc := [LKey "addresses"; LIdx 1]; kind := model_type |} ∈ es.
Proof.
  split; [reflexivity|].
  apply (bad_address_item_located AddressBase_spec
           (OwnerCreate AddressBase_spec)
           (<["addresses" := PList [main_street; PStr "nowhere"]]> ada) world0
           [main_street; PStr "nowhere"] 1 (PStr "nowhere")).
  - in_list.
  - vm_compute. reflexivity.
  - reflexivity.
  - discriminate.
Defined.

Lemma missing_address_field_located_witness :
  lookup_field AddressBase_spec "street" = Some (TConStr 1, Required) ∧
  ∃ es,
    (model_validate (OwnerCreate AddressBase_spec)
       (<["addresses" := PList [main_street; PDict {["city" := PStr "London"]}]]>
          ada) world0).2 = Err es ∧
    {| loc := [LKey "addresses"; LIdx 1; LKey "street"]; kind := missing |} ∈ es.
Proof.
  split; [reflexivity|].
  apply (missing_address_field_located AddressBase_spec
           (OwnerCreate AddressBase_spec)
           (<["addresses" := PList [main_street; PDict {["city" := PStr "London"]}]]>
              ada) world0
           [main_street; PDict {["city" := PStr "London"]}] 1
           {["city" := PStr "London"]} "street" (TConStr 1)).
  - in_list.
  - vm_compute. reflexivity.
  - reflexivity.
  - reflexivity.
  - vm_compute. reflexivity.
Defined.

Lemma acceptance_ignores_world_witness :
  is_ok (model_validate (OwnerRead AddressBase_spec) ada world0).2
  = is_ok (model_validate (OwnerRead AddressBase_spec) ada world2).2.
Proof.
  apply (acceptance_ignores_world AddressBase_spec
           (OwnerRead AddressBase_spec) ada world0 world2).
  in_list.
Defined.

Lemma pet_validation_pure_witness :
  (model_validate PetCreate buddy world1).1 = world1.
Proof.
  apply (pet_validation_pure PetCreate buddy world1). in_list.
Defined.

Lemma addresses_keep_order_witness :
  ∃ w' c,
    model_validate (OwnerCreate AddressBase_spec)
      (<["addresses" := PList [main_street; downing_street]]> ada) world0
      = (w', Ok c) ∧
    ∃ l', c !! "addresses" = Some (PList l') ∧
          length l' = length [main_street; downing_street] ∧
          Forall2 (λ x y, ∃ w1 w2,
                     validate (TModel AddressBase_spec) x w1 = (w2, Ok y))
            [main_street; downing_street] l'.
Proof.
  eexists _, _. split; [vm_compute; reflexivity|].
  eapply (addresses_keep_order AddressBase_spec (OwnerCreate AddressBase_spec)
           (<["addresses" := PList [main_street; downing_street]]> ada)
           _ world0 _ [main_street; downing_street]).
  - in_list.
  - vm_compute. reflexivity.
  - vm_compute. reflexivity.
Defined.

Lemma email_stored_normalized_witness :
  model_validate (OwnerCreate AddressBase_spec) ada world0
    = (world0, Ok ada_validated) ∧
  ∃ s', EmailStr "ada@example.com" = Some s' ∧
        ada_validated !! "email" = Some (PStr s').
Proof.
  split; [vm_compute; reflexivity|].
  apply (email_stored_normalized AddressBase_spec
           (OwnerCreate AddressBase_spec) ada ada_validated world0 world0
           "ada@example.com").
  - in_list.
  - vm_compute. reflexivity.
  - vm_compute. reflexivity.
Defined.

Lemma pet_owner_embedded_witness :
  model_validate (PetRead AddressBase_spec) buddy_with_owner world1
    = (world2, Ok buddy_read) ∧
  ∃ o, buddy_read !! "owner" = Some (PDict o) ∧
       record_of (OwnerRead AddressBase_spec) o.
Proof.
  split; [vm_compute; reflexivity|].
  apply (pet_owner_embedded AddressBase_spec eq_refl
           buddy_with_owner buddy_read world1 world2) with (PDict ada_read).
  - vm_compute. reflexivity.
  - vm_compute. reflexivity.
  - discriminate.
Defined.


Lemma validated_payload_fixed_witness :
  ∃ w' c,
    model_validate (OwnerUpdate AddressBase_spec) ada_phone world0 = (w', Ok c) ∧
    model_validate (OwnerUpdate AddressBase_spec)
      (model_dump json (OwnerUpdate AddressBase_spec) c) world2 = (world2, Ok c).
Proof.
  eexists _, _. split; [vm_compute; reflexivity|].
  eapply (validated_payload_fixed AddressBase_spec eq_refl
           (OwnerUpdate AddressBase_spec) json ada_phone _ world0 _ world2).
  - in_list.
  - vm_compute. reflexivity.
Defined.
